(** * go-kata: graceful-shutdown server and sharded map

    A shallow embedding of two katas of the repository:

    - [02-concurrent-map-with-sharded-locks]: [ShardedMap], its hash
      functions and its four operations;
    - [03-graceful-shutdown-server]: [Server] with [Start] and [Stop],
      [workerPool] with [submit], [worker] and [processRequest], and
      [dbConnection] with [connect] and [close].

    Go values are modelled as the code has them: [int] and [uint64] as [Z]
    with the wrap-around written out, [nil]-able pointers as [option],
    channels as a buffer with a capacity and a closed flag.  A run-time
    panic is an explicit result ([Panic]).  A [select] statement is modelled
    case by case: a case that can proceed gives a result, one that cannot
    gives none.  Go chooses pseudo-randomly among the cases that can
    proceed, so each of their results is a possible behaviour. *)

From stdpp Require Import base numbers list option gmap strings pretty.
From Stdlib Require Import ZArith Lia.
From Stdlib.Strings Require Import Byte.

Open Scope Z_scope.

(** ** Results of Go code that may panic *)

Inductive res (A : Type) : Type :=
| Ok (a : A)
| Panic (msg : string).
Arguments Ok {A} a.
Arguments Panic {A} msg.

Definition res_bind {A B} (m : res A) (k : A → res B) : res B :=
  match m with
  | Ok a => k a
  | Panic msg => Panic msg
  end.

(** Indexing a slice: out of range is a run-time panic. *)
Definition index {A} (l : list A) (i : Z) : res A :=
  if bool_decide (0 ≤ i) then
    match l !! Z.to_nat i with
    | Some a => Ok a
    | None => Panic "index out of range"
    end
  else Panic "index out of range".

(** ** Machine integers *)

Definition wrap64 (z : Z) : Z := z mod 2 ^ 64.


(** [uint64(k)] for a signed [k]: two's complement. *)
Definition to_uint64 (k : Z) : Z := wrap64 k.

(** * Sharded map *)

Module ShardedMap.

Definition offset64 : Z := 14695981039346656037.
Definition prime64 : Z := 1099511628211.

(** [fnv64aHash]: [hash ^= uint64(b); hash *= prime64] for every byte. *)
Definition fnv64aHash (data : list byte) : Z :=
  fold_left
    (λ hash b, wrap64 (Z.lxor hash (Z.of_N (Byte.to_N b)) * prime64))
    data offset64.

(** The mixing applied to the integer keys in [getShardIndex]. *)
Definition mix64 (k : Z) : Z :=
  let hash := k in
  let hash := Z.lxor hash (Z.shiftr hash 33) in
  let hash := wrap64 (hash * 0xff51afd7ed558ccd) in
  let hash := Z.lxor hash (Z.shiftr hash 33) in
  let hash := wrap64 (hash * 0xc4ceb9fe1a85ec53) in
  let hash := Z.lxor hash (Z.shiftr hash 33) in
  hash.

(** The dynamic type of a key, as the type switch of [getShardIndex] sees
    it; [KOther] carries the key's memory representation. *)
Inductive key_repr : Type :=
| KString (s : list byte)
| KInt (k : Z)
| KInt64 (k : Z)
| KUint64 (k : Z)
| KUint32 (k : Z)
| KInt32 (k : Z)
| KOther (mem : list byte).

Definition key_hash (r : key_repr) : Z :=
  match r with
  | KString s => fnv64aHash s
  | KInt k => mix64 (to_uint64 k)
  | KInt64 k => mix64 (to_uint64 k)
  | KUint64 k => mix64 (wrap64 k)
  | KUint32 k => mix64 (to_uint64 k)
  | KInt32 k => mix64 (to_uint64 k)
  | KOther mem => fnv64aHash mem
  end.

Section Map.
Context {K : Type} `{Countable K} {V : Type}.
(** How a key of the generic type [K] appears to the type switch. *)
Variable repr : K → key_repr.

Record ShardedMap : Type := mkShardedMap {
  shards : list (gmap K V);
  shardMutex : list unit;
  shardCount : Z
}.


(** [hash % sm.shardCount]; the modulo panics on a zero divisor. *)
Definition getShardIndex (sm : ShardedMap) (key : K) : res Z :=
  let hash := key_hash (repr key) in
  if bool_decide (shardCount sm = 0) then Panic "integer divide by zero"
  else Ok (hash mod shardCount sm).

Definition Get (sm : ShardedMap) (key : K) : res (option V) :=
  res_bind (getShardIndex sm key) (λ shardIndex,
  res_bind (index (shardMutex sm) shardIndex) (λ _,
  res_bind (index (shards sm) shardIndex) (λ shard,
  Ok (shard !! key)))).

(** [Set] ([Set] is a keyword here). *)
Definition Set_ (sm : ShardedMap) (key : K) (value : V) : res ShardedMap :=
  res_bind (getShardIndex sm key) (λ shardIndex,
  res_bind (index (shardMutex sm) shardIndex) (λ _,
  res_bind (index (shards sm) shardIndex) (λ shard,
  Ok {| shards := <[Z.to_nat shardIndex := <[key := value]> shard]> (shards sm);
        shardMutex := shardMutex sm;
        shardCount := shardCount sm |}))).

Definition Delete (sm : ShardedMap) (key : K) : res ShardedMap :=
  res_bind (getShardIndex sm key) (λ shardIndex,
  res_bind (index (shardMutex sm) shardIndex) (λ _,
  res_bind (index (shards sm) shardIndex) (λ shard,
  Ok {| shards := <[Z.to_nat shardIndex := delete key shard]> (shards sm);
        shardMutex := shardMutex sm;
        shardCount := shardCount sm |}))).

(** [Keys]: [for i := range sm.shards], the keys of [sm.shards[i]]. *)
Fixpoint Keys_from (sm : ShardedMap) (idxs : list nat) : res (list K) :=
  match idxs with
  | [] => Ok []
  | i :: idxs =>
      res_bind (index (shards sm) (Z.of_nat i)) (λ shard,
      res_bind (Keys_from sm idxs) (λ keys,
      Ok ((map_to_list shard).*1 ++ keys)))
  end.

Definition Keys (sm : ShardedMap) : res (list K) :=
  Keys_from sm (seq 0 (length (shards sm))).

(** The operations of the map, to speak about every use of it. *)
Inductive op : Type :=
| OpGet (key : K)
| OpSet (key : K) (value : V)
| OpDelete (key : K)
| OpKeys.

Definition apply_op (sm : ShardedMap) (o : op) : res ShardedMap :=
  match o with
  | OpGet key => res_bind (Get sm key) (λ _, Ok sm)
  | OpSet key value => Set_ sm key value
  | OpDelete key => Delete sm key
  | OpKeys => res_bind (Keys sm) (λ _, Ok sm)
  end.

Fixpoint run (sm : ShardedMap) (os : list op) : res ShardedMap :=
  match os with
  | [] => Ok sm
  | o :: os => res_bind (apply_op sm o) (λ sm', run sm' os)
  end.


End Map.

Arguments ShardedMap K {_ _} V.

End ShardedMap.

(** * Graceful-shutdown server *)

(** ** Errors, events and channels *)

(** [errors.New]/[fmt.Errorf] without a cause, and [fmt.Errorf("msg: %w", err)]. *)
Inductive error : Type :=
| Errorf (msg : string)
| Wrapf (msg : string) (err : error).

Definition context_Canceled : error := Errorf "context canceled".

(** What a blocking [select] between a completion channel and [ctx.Done()]
    observed: the completion, or the context's error. *)
Inductive wait_outcome : Type :=
| WaitDone
| WaitCtxDone (ctxErr : error).

(** Calls on an [http.ResponseWriter]. *)
Inductive wcall : Type :=
| WriteHeader (code : Z)
| Write (body : string)
| HttpError (msg : string) (code : Z).

Inductive goroutine : Type :=
| GoCacheWarmer
| GoWorkerPoolStart
| GoListenAndServe.

(** The observable actions of the server, in the order they are executed. *)
Inductive event : Type :=
| Log (msg : string)
| RootCancel
| HttpShutdown
| CloseStopCh
| PoolWait (o : wait_outcome)
| WgWait (o : wait_outcome)
| DbClose
| ConnClose
| CloseShutdownCh
| DbConnect
| Spawn (g : goroutine)
| Resp (writer : nat) (c : wcall).

Global Instance error_eq_dec : EqDecision error.
Proof. solve_decision. Defined.
Global Instance wait_outcome_eq_dec : EqDecision wait_outcome.
Proof. solve_decision. Defined.
Global Instance wcall_eq_dec : EqDecision wcall.
Proof. solve_decision. Defined.
Global Instance goroutine_eq_dec : EqDecision goroutine.
Proof. solve_decision. Defined.
Global Instance event_eq_dec : EqDecision event.
Proof. solve_decision. Defined.

Definition is_log (e : event) : bool :=
  match e with Log _ => true | _ => false end.

(** The actions of a trace, without the log lines. *)
Definition actions (tr : list event) : list event :=
  List.filter (λ e, negb (is_log e)) tr.

(** Position of the first occurrence of an event. *)
Fixpoint position (e : event) (tr : list event) : option nat :=
  match tr with
  | [] => None
  | x :: tr => if bool_decide (x = e) then Some 0%nat else S <$> position e tr
  end.

(** [a] occurs, [b] occurs, and [a]'s first occurrence is strictly earlier. *)
Definition before (a b : event) (tr : list event) : bool :=
  match position a tr, position b tr with
  | Some i, Some j => bool_decide (i < j)%nat
  | _, _ => false
  end.

(** Some occurrence of [a] is followed, later in the trace, by one of [b]. *)
Definition precedes (a b : event) (tr : list event) : Prop :=
  ∃ l1 l2 l3, tr = l1 ++ a :: l2 ++ b :: l3.

(** A Go channel: the buffered elements in FIFO order, the capacity given to
    [make], and whether [close] was called. *)
Record chan (A : Type) : Type := mkChan {
  buf : list A;
  cap : Z;
  closed : bool
}.
Arguments mkChan {A}.
Arguments buf {A}.
Arguments cap {A}.
Arguments closed {A}.

(** Go's [int] arithmetic wraps in two's complement. *)
Definition to_int (z : Z) : Z := (z + 2 ^ 63) mod 2 ^ 64 - 2 ^ 63.

Definition make_chan {A} (size : Z) : res (chan A) :=
  if bool_decide (size < 0) then Panic "makechan: size out of range"
  else Ok (mkChan [] size false).

(** The ways a channel operation inside a [select] can go. *)
Inductive chan_op (A B : Type) : Type :=
| Blocked
| Proceeds (b : B) (ch : chan A)
| Panics (msg : string).
Arguments Blocked {A B}.
Arguments Proceeds {A B} b ch.
Arguments Panics {A B} msg.

(** [ch <- x]: on a closed channel the send proceeds by panicking; otherwise
    it proceeds when the buffer has room. *)
Definition send {A} (ch : chan A) (x : A) : chan_op A unit :=
  if closed ch then Panics "send on closed channel"
  else if bool_decide (Z.of_nat (length (buf ch)) < cap ch)
       then Proceeds () (mkChan (buf ch ++ [x]) (cap ch) false)
       else Blocked.

(** [x, ok := <-ch]: the oldest buffered element with [ok = true]; on an
    empty channel, [ok = false] if it is closed, and blocked if it is not. *)
Definition recv {A} (ch : chan A) : chan_op A (option A) :=
  match buf ch with
  | x :: rest => Proceeds (Some x) (mkChan rest (cap ch) (closed ch))
  | [] => if closed ch then Proceeds None ch else Blocked
  end.

(** ** Requests *)

Record httpRequest : Type := mkHttpRequest {
  URL : option string;
  Method : string
}.

(** [request]: the response writer and the HTTP request, both nil-able. *)
Record request : Type := mkRequest {
  w : option nat;
  r : option httpRequest
}.

(** ** dbConnection *)

Module dbConnection.

Record netConn : Type := mkNetConn { peerClosed : bool }.

Record t : Type := mk { conn : option netConn }.

Definition newDBConnection : t := {| conn := None |}.

(** [connect]: keeps one end of a [net.Pipe], closes the other; never fails. *)
Definition connect (db : t) : t * option error * list event :=
  let conn1 := {| peerClosed := true |} in
  ({| conn := Some conn1 |}, None,
   [DbConnect; Log "database connection established (mock)"]).

(** [close]; [closeErr] is what [db.conn.Close()] returns if it is called. *)
Definition close (closeErr : option error) (db : t) : t * option error * list event :=
  match conn db with
  | Some _ =>
      match closeErr with
      | Some err =>
          (db, Some (Wrapf "failed to close database connection" err), [ConnClose])
      | None =>
          ({| conn := None |}, None, [ConnClose; Log "database connection closed"])
      end
  | None => (db, None, [])
  end.

(** The states of the spec's Resource Handle that the code can tell apart:
    [conn = nil] is both Unopened and Closed. *)
Definition is_open (db : t) : bool :=
  match conn db with Some _ => true | None => false end.

End dbConnection.

(** ** workerPool *)

Module workerPool.

(** [requestCh] carries [*request] values, which may be nil. *)
Record t : Type := mk {
  size : Z;
  workers : Z;
  requestCh : chan (option request);
  stopCh : bool;
  wg : Z
}.

Definition newWorkerPool (size : Z) : res t :=
  res_bind (make_chan (to_int (size * 2))) (λ ch,
  Ok {| size := size; workers := 0; requestCh := ch; stopCh := false; wg := 0 |}).

Definition with_requestCh (wp : t) (ch : chan (option request)) : t :=
  {| size := size wp; workers := workers wp; requestCh := ch;
     stopCh := stopCh wp; wg := wg wp |}.

(** *** submit *)

Inductive submit_case : Type :=
| SubmitCtxDone
| SubmitStopCh
| SubmitSend.

#[global] Instance submit_case_eq_dec : EqDecision submit_case.
Proof. solve_decision. Defined.

(** One case of [submit]'s [select]: [None] if the case cannot proceed,
    else what the call returns through it and the pool it leaves.  [ctx] is
    [ctx.Err()], [None] while the context is not done. *)
Definition submit_case_run (ctx : option error) (wp : t) (req : option request)
    (c : submit_case) : option (res (option error) * t) :=
  match c with
  | SubmitCtxDone =>
      match ctx with
      | Some err => Some (Ok (Some err), wp)
      | None => None
      end
  | SubmitStopCh =>
      if stopCh wp then Some (Ok (Some (Errorf "worker pool is shutting down")), wp)
      else None
  | SubmitSend =>
      match send (requestCh wp) req with
      | Proceeds _ ch => Some (Ok None, with_requestCh wp ch)
      | Panics msg => Some (Panic msg, wp)
      | Blocked => None
      end
  end.

(** [submit]: every way the call can end, with the pool it leaves; the empty
    list means that the call blocks. *)
Definition submit (ctx : option error) (wp : t) (req : option request)
    : list (res (option error) * t) :=
  omap (submit_case_run ctx wp req) [SubmitCtxDone; SubmitStopCh; SubmitSend].

(** *** processRequest *)

Definition newline : string := String (Ascii.ascii_of_nat 10) EmptyString.

Inductive work_case : Type :=
| WorkTimer
| WorkCtxDone.

(** [select] between [time.After(100ms)] and [ctx.Done()], entered at time
    [now]; the pool's context is cancelled at [cancelAt], if ever (times in
    milliseconds).  The case that becomes ready first is taken. *)
Definition work_ready (now : Z) (cancelAt : option Z) : list work_case :=
  match cancelAt with
  | None => [WorkTimer]
  | Some tc =>
      if bool_decide (tc < now + 100) then [WorkCtxDone]
      else if bool_decide (tc = now + 100) then [WorkTimer; WorkCtxDone]
      else [WorkTimer]
  end.

Definition processRequest_case (c : work_case) (req : option request) (workerID : Z)
    : list event :=
  match req with
  | None => [Log "skipping nil request"]
  | Some req =>
      match r req with
      | None => [Log "skipping nil request"]
      | Some hr =>
          let path := match URL hr with Some p => p | None => "/" end in
          Log "processing request" ::
          match w req with
          | None => [Log "skipping response (nil writer)"]
          | Some wr =>
              match c with
              | WorkTimer =>
                  [Resp wr (WriteHeader 200);
                   Resp wr (Write ("OK - processed by worker " +:+ pretty workerID +:+ newline))]
              | WorkCtxDone => [Resp wr (HttpError "Request cancelled" 408)]
              end
          end
      end
  end.

(** [processRequest]: every way the call can run. *)
Definition processRequest (now : Z) (cancelAt : option Z) (req : option request)
    (workerID : Z) : list (list event) :=
  (λ c, processRequest_case c req workerID) <$> work_ready now cancelAt.

(** The run worked on the request to the end: it wrote the 200 response. *)
Definition completed (writer : nat) (run : list event) : bool :=
  bool_decide (Resp writer (WriteHeader 200) ∈ run).

(** *** worker *)

Inductive worker_case : Type :=
| WorkerCtxDone
| WorkerRecv.

#[global] Instance worker_case_eq_dec : EqDecision worker_case.
Proof. solve_decision. Defined.

Inductive worker_next : Type :=
| Exit
| Continue (req : option request).

(** One iteration of the worker's loop through one case of its [select]:
    [None] if the case cannot proceed; [Exit] is [return], [Continue req] is
    the call [wp.processRequest(ctx, req, id)] followed by the next
    iteration. *)
Definition worker_iter (ctxDone : bool) (wp : t) (c : worker_case)
    : option (worker_next * t) :=
  match c with
  | WorkerCtxDone => if ctxDone then Some (Exit, wp) else None
  | WorkerRecv =>
      match recv (requestCh wp) with
      | Proceeds (Some req) ch => Some (Continue req, with_requestCh wp ch)
      | Proceeds None _ => Some (Exit, wp)
      | Panics _ | Blocked => None
      end
  end.

(** *** The pool and its goroutines *)

(** The pool with the context it was started with, the worker goroutines
    that have not returned, and two histories: the items whose [submit]
    returned nil, and the calls of [processRequest]. *)
Record sys : Type := mkSys {
  ctxDone : bool;
  pool : t;
  running : list Z;
  accepted : list (option request);
  processed : list (Z * option request)
}.

(** [start] up to its [select]: one worker goroutine per [i < wp.size]. *)
Definition start (wp : t) : sys :=
  let n := Z.to_nat (size wp) in
  {| ctxDone := false;
     pool := {| size := size wp; workers := workers wp + Z.of_nat n;
                requestCh := requestCh wp; stopCh := stopCh wp;
                wg := wg wp + Z.of_nat n |};
     running := Z.of_nat <$> seq 0 n;
     accepted := [];
     processed := [] |}.

Inductive action : Type :=
| ASubmit (c : submit_case) (req : option request)
| AWorker (id : Z) (c : worker_case)
| ACancel
| ACloseStopCh
| ACloseRequestCh.

Definition ctx_err (done : bool) : option error :=
  if done then Some context_Canceled else None.

(** One step of one goroutine; [None] when the step cannot be taken.
    [ASubmit]: a caller of [submit] with the pool's context, as
    [handleRequest] does.  [ACancel]: the context is cancelled.
    [ACloseStopCh]: [stop] closes [stopCh].  [ACloseRequestCh]: [start],
    past its [select], closes [requestCh]. *)
Definition step (a : action) (s : sys) : option sys :=
  match a with
  | ASubmit c req =>
      match submit_case_run (ctx_err (ctxDone s)) (pool s) req c with
      | Some (Ok None, wp') =>
          Some (mkSys (ctxDone s) wp' (running s) (accepted s ++ [req]) (processed s))
      | Some (_, wp') =>
          Some (mkSys (ctxDone s) wp' (running s) (accepted s) (processed s))
      | None => None
      end
  | AWorker id c =>
      if bool_decide (id ∈ running s) then
        match worker_iter (ctxDone s) (pool s) c with
        | Some (Exit, wp') =>
            Some (mkSys (ctxDone s) wp' (List.filter (λ j, negb (Z.eqb j id)) (running s))
                        (accepted s) (processed s))
        | Some (Continue req, wp') =>
            Some (mkSys (ctxDone s) wp' (running s) (accepted s)
                        (processed s ++ [(id, req)]))
        | None => None
        end
      else None
  | ACancel =>
      Some (mkSys true (pool s) (running s) (accepted s) (processed s))
  | ACloseStopCh =>
      if stopCh (pool s) then None
      else
        let wp := pool s in
        Some (mkSys (ctxDone s)
                {| size := size wp; workers := workers wp; requestCh := requestCh wp;
                   stopCh := true; wg := wg wp |}
                (running s) (accepted s) (processed s))
  | ACloseRequestCh =>
      let ch := requestCh (pool s) in
      if (ctxDone s || stopCh (pool s)) && negb (closed ch) then
        Some (mkSys (ctxDone s) (with_requestCh (pool s) (mkChan (buf ch) (cap ch) true))
                (running s) (accepted s) (processed s))
      else None
  end.

Fixpoint exec (acts : list action) (s : sys) : option sys :=
  match acts with
  | [] => Some s
  | a :: acts =>
      match step a s with
      | Some s' => exec acts s'
      | None => None
      end
  end.

(** The items waiting in the queue. *)
Definition pending (s : sys) : list (option request) := buf (requestCh (pool s)).

(** The items accepted so far are the processed ones followed by the queued
    ones, in that order. *)
Definition fifo (s : sys) : Prop :=
  accepted s = ((processed s).*2) ++ pending s.

(** Without cancellation, once a worker has returned the queue is empty and
    closed; [n] is the number of workers started. *)
Definition drained_if_left (n : nat) (s : sys) : Prop :=
  ctxDone s = false → (length (running s) < n)%nat →
  pending s = [] ∧ closed (requestCh (pool s)) = true.

End workerPool.

(** ** Server *)

Record Config : Type := mkConfig {
  Port : string;
  WorkerPoolSize : Z;
  RequestTimeout : Z;
  ShutdownTimeout : Z
}.

Record httpServerT : Type := mkHttpServer {
  Addr : string;
  ReadTimeout : Z;
  WriteTimeout : Z;
  IdleTimeout : Z
}.

(** [cacheWarmer]: its ticker's period, in milliseconds. *)
Record cacheWarmerT : Type := mkCacheWarmer { ticker : Z }.

Definition newCacheWarmer : cacheWarmerT := {| ticker := 30 * 1000 |}.

(** The fields of [Server].  Pointers are [option]s ([None] is nil),
    [shutdownCh] is whether the channel is closed, [shutdownOnce] whether
    the [sync.Once] has fired, [rootCtx] whether the root context is
    cancelled, [wg] the wait group's counter as [Start] raises it.  [trace]
    records the actions executed so far. *)
Record Server : Type := mkServer {
  config : Config;
  httpServer : option httpServerT;
  workerPool : option workerPool.t;
  cacheWarmer : option cacheWarmerT;
  dbConn : option dbConnection.t;
  shutdownCh : bool;
  shutdownOnce : bool;
  rootCtx : bool;
  wg : Z;
  trace : list event
}.

Definition NewServer (config : Config) : Server :=
  {| config := config; httpServer := None; workerPool := None;
     cacheWarmer := None; dbConn := None; shutdownCh := false;
     shutdownOnce := false; rootCtx := false; wg := 0; trace := [] |}.

(** *** A state monad with panics over [Server] *)

Definition M (A : Type) : Type := Server → res A * Server.

Definition ret {A} (a : A) : M A := λ s, (Ok a, s).

Definition bind {A B} (m : M A) (k : A → M B) : M B :=
  λ s, match m s with
       | (Ok a, s') => k a s'
       | (Panic msg, s') => (Panic msg, s')
       end.

Notation "x <- m ;; k" := (bind m (λ x, k))
  (at level 100, m at next level, right associativity).
Notation "m ;;; k" := (bind m (λ _, k))
  (at level 100, right associativity).

Definition panic {A} (msg : string) : M A := λ s, (Panic msg, s).

Definition get {A} (f : Server → A) : M A := λ s, (Ok (f s), s).

Definition emit (evs : list event) : M unit :=
  λ s, (Ok (),
        mkServer (config s) (httpServer s) (workerPool s) (cacheWarmer s) (dbConn s)
          (shutdownCh s) (shutdownOnce s) (rootCtx s) (wg s) (trace s ++ evs)).

Definition log (msg : string) : M unit := emit [Log msg].

(** Reading a field through a pointer: nil panics. *)
Definition deref {A} (p : option A) : M A :=
  match p with
  | Some a => ret a
  | None => panic "invalid memory address or nil pointer dereference"
  end.

Definition set_httpServer (x : option httpServerT) : M unit :=
  λ s, (Ok (),
        mkServer (config s) x (workerPool s) (cacheWarmer s) (dbConn s)
          (shutdownCh s) (shutdownOnce s) (rootCtx s) (wg s) (trace s)).

Definition set_workerPool (x : option workerPool.t) : M unit :=
  λ s, (Ok (),
        mkServer (config s) (httpServer s) x (cacheWarmer s) (dbConn s)
          (shutdownCh s) (shutdownOnce s) (rootCtx s) (wg s) (trace s)).

Definition set_cacheWarmer (x : option cacheWarmerT) : M unit :=
  λ s, (Ok (),
        mkServer (config s) (httpServer s) (workerPool s) x (dbConn s)
          (shutdownCh s) (shutdownOnce s) (rootCtx s) (wg s) (trace s)).

Definition set_dbConn (x : option dbConnection.t) : M unit :=
  λ s, (Ok (),
        mkServer (config s) (httpServer s) (workerPool s) (cacheWarmer s) x
          (shutdownCh s) (shutdownOnce s) (rootCtx s) (wg s) (trace s)).

Definition set_shutdownCh (x : bool) : M unit :=
  λ s, (Ok (),
        mkServer (config s) (httpServer s) (workerPool s) (cacheWarmer s) (dbConn s)
          x (shutdownOnce s) (rootCtx s) (wg s) (trace s)).

Definition set_shutdownOnce (x : bool) : M unit :=
  λ s, (Ok (),
        mkServer (config s) (httpServer s) (workerPool s) (cacheWarmer s) (dbConn s)
          (shutdownCh s) x (rootCtx s) (wg s) (trace s)).

Definition set_rootCtx (x : bool) : M unit :=
  λ s, (Ok (),
        mkServer (config s) (httpServer s) (workerPool s) (cacheWarmer s) (dbConn s)
          (shutdownCh s) (shutdownOnce s) x (wg s) (trace s)).

(** [s.wg.Add(1); go g]. *)
Definition wg_Add_go (g : goroutine) : M unit :=
  λ s, (Ok (),
        mkServer (config s) (httpServer s) (workerPool s) (cacheWarmer s) (dbConn s)
          (shutdownCh s) (shutdownOnce s) (rootCtx s) (wg s + 1) (trace s ++ [Spawn g])).

(** [close(ch)] on a channel modelled by its closed flag. *)
Definition close_flag (closed : bool) : res bool :=
  if closed then Panic "close of closed channel" else Ok true.

(** *** Start *)

(** [Start], over the method that opens the connection.  [connect] is the
    repository's [dbConnection.connect] in [Start] below. *)
Definition Start_with
    (connect : dbConnection.t → dbConnection.t * option error * list event)
    : M (option error) :=
  log "starting server";;;
  cfg <- get config;;
  (* Initialize database connection *)
  let '(db, err, evs) := connect dbConnection.newDBConnection in
  set_dbConn (Some db);;;
  emit evs;;;
  match err with
  | Some err => ret (Some (Wrapf "failed to connect to database" err))
  | None =>
      (* Start cache warmer *)
      set_cacheWarmer (Some newCacheWarmer);;;
      wg_Add_go GoCacheWarmer;;;
      (* Initialize worker pool *)
      match workerPool.newWorkerPool (WorkerPoolSize cfg) with
      | Panic msg => panic msg
      | Ok wp =>
          set_workerPool (Some wp);;;
          wg_Add_go GoWorkerPoolStart;;;
          (* Setup HTTP server *)
          set_httpServer (Some {| Addr := ":" +:+ Port cfg;
                                  ReadTimeout := RequestTimeout cfg;
                                  WriteTimeout := RequestTimeout cfg;
                                  IdleTimeout := 60 * 1000 |});;;
          (* Start HTTP server in a goroutine *)
          wg_Add_go GoListenAndServe;;;
          ret None
      end
  end.

Definition Start : M (option error) := Start_with dbConnection.connect.

(** *** Stop *)

(** What the blocking calls of one run of the shutdown protocol observe:
    the result of [httpServer.Shutdown], the [select] of [workerPool.stop],
    the [select] of step 3, and the result of [db.conn.Close()]. *)
Record stopEnv : Type := mkStopEnv {
  httpShutdownErr : option error;
  poolWait : wait_outcome;
  wgWait : wait_outcome;
  connCloseErr : option error
}.

(** [s.rootCancel()]. *)
Definition rootCancel : M unit :=
  set_rootCtx true;;; emit [RootCancel].

(** [s.httpServer.Shutdown(shutdownCtx)]. *)
Definition httpServer_Shutdown (env : stopEnv) : M (option error) :=
  p <- get httpServer;;
  _ <- deref p;;
  emit [HttpShutdown];;;
  ret (httpShutdownErr env).

(** [s.workerPool.stop(shutdownCtx)]: [close(wp.stopCh)], then the [select]. *)
Definition workerPool_stop (env : stopEnv) : M (option error) :=
  p <- get workerPool;;
  wp <- deref p;;
  match close_flag (workerPool.stopCh wp) with
  | Panic msg => panic msg
  | Ok c =>
      set_workerPool
        (Some {| workerPool.size := workerPool.size wp;
                 workerPool.workers := workerPool.workers wp;
                 workerPool.requestCh := workerPool.requestCh wp;
                 workerPool.stopCh := c;
                 workerPool.wg := workerPool.wg wp |});;;
      emit [CloseStopCh; PoolWait (poolWait env)];;;
      match poolWait env with
      | WaitDone => ret None
      | WaitCtxDone ctxErr => ret (Some (Wrapf "worker pool stop timeout" ctxErr))
      end
  end.

(** [s.dbConn.close()]. *)
Definition dbConn_close (env : stopEnv) : M (option error) :=
  p <- get dbConn;;
  db <- deref p;;
  emit [DbClose];;;
  let '(db', err, evs) := dbConnection.close (connCloseErr env) db in
  set_dbConn (Some db');;;
  emit evs;;;
  ret err.

(** The function passed to [s.shutdownOnce.Do]; it returns the value it
    leaves in the caller's [shutdownErr]. *)
Definition Stop_body (env : stopEnv) : M (option error) :=
  log "shutting down server";;;
  (* Cancel root context to signal all goroutines *)
  rootCancel;;;
  (* Step 1: Stop accepting new requests *)
  err <- httpServer_Shutdown env;;
  shutdownErr <-
    match err with
    | Some err =>
        log "HTTP server shutdown error";;;
        ret (Some (Wrapf "HTTP server shutdown" err))
    | None =>
        log "HTTP server stopped accepting new requests";;;
        ret None
    end;;
  (* Step 2: Drain worker pool (wait for in-flight requests) *)
  err <- workerPool_stop env;;
  shutdownErr <-
    match err with
    | Some err =>
        log "worker pool shutdown error";;;
        ret (if shutdownErr is None
             then Some (Wrapf "worker pool shutdown" err) else shutdownErr)
    | None =>
        log "worker pool drained";;;
        ret shutdownErr
    end;;
  (* Step 3: Wait for cache warmer to finish *)
  emit [WgWait (wgWait env)];;;
  shutdownErr <-
    match wgWait env with
    | WaitDone =>
        log "cache warmer and all goroutines finished";;;
        ret shutdownErr
    | WaitCtxDone _ =>
        log "shutdown timeout exceeded while waiting for goroutines";;;
        ret (if shutdownErr is None
             then Some (Errorf "shutdown timeout exceeded") else shutdownErr)
    end;;
  (* Step 4: Close database connection (after all goroutines finished) *)
  err <- dbConn_close env;;
  shutdownErr <-
    match err with
    | Some err =>
        log "database close error";;;
        ret (if shutdownErr is None
             then Some (Wrapf "database close" err) else shutdownErr)
    | None =>
        log "database connection closed";;;
        ret shutdownErr
    end;;
  closedCh <- get shutdownCh;;
  match close_flag closedCh with
  | Panic msg => panic msg
  | Ok c =>
      set_shutdownCh c;;;
      emit [CloseShutdownCh];;;
      log "server shutdown complete";;;
      ret shutdownErr
  end.

(** [Stop]: [shutdownErr] is a variable of the call; [shutdownOnce.Do] runs
    the body in the first call only, and a later call returns only after
    that run has ended. *)
Definition Stop (env : stopEnv) : M (option error) :=
  let shutdownErr : option error := None in
  done <- get shutdownOnce;;
  if done then ret shutdownErr
  else
    set_shutdownOnce true;;;
    shutdownErr <- Stop_body env;;
    ret shutdownErr.

(** [Start] has left every component in place and [Stop] has not run. *)
Definition started (s : Server) : bool :=
  match httpServer s, workerPool s, dbConn s with
  | Some _, Some wp, Some _ =>
      negb (workerPool.stopCh wp) && negb (shutdownCh s) && negb (shutdownOnce s)
  | _, _, _ => false
  end.

(** ** The aggregate error, in the spec's words *)

(** "Each step contributes to a best-effort aggregate error: first error
    wins."  The aggregate of the errors of the steps, in their order. *)
Fixpoint first_error (errs : list (option error)) : option error :=
  match errs with
  | [] => None
  | Some err :: _ => Some err
  | None :: errs => first_error errs
  end.

(** The error each step of the shutdown protocol contributes, for a server
    whose connection handle is [db]. *)
Definition step_errors (env : stopEnv) (db : dbConnection.t) : list (option error) :=
  [ Wrapf "HTTP server shutdown" <$> httpShutdownErr env;
    match poolWait env with
    | WaitDone => None
    | WaitCtxDone ctxErr =>
        Some (Wrapf "worker pool shutdown" (Wrapf "worker pool stop timeout" ctxErr))
    end;
    match wgWait env with
    | WaitDone => None
    | WaitCtxDone _ => Some (Errorf "shutdown timeout exceeded")
    end;
    Wrapf "database close" <$> (dbConnection.close (connCloseErr env) db).1.2 ].

(** ** Concrete inputs *)

Definition cfg0 : Config :=
  {| Port := "8080"; WorkerPoolSize := 2; RequestTimeout := 5000;
     ShutdownTimeout := 10000 |}.

(** A run of the protocol in which nothing fails. *)
Definition env_ok : stopEnv :=
  {| httpShutdownErr := None; poolWait := WaitDone; wgWait := WaitDone;
     connCloseErr := None |}.

(** A run of the protocol whose context is already cancelled when the two
    waits look at it. *)
Definition env_timeout : stopEnv :=
  {| httpShutdownErr := None; poolWait := WaitCtxDone context_Canceled;
     wgWait := WaitCtxDone context_Canceled; connCloseErr := None |}.

(** A [connect] of an unreachable database: what [Start]'s error branch is
    written for.  The repository's own [dbConnection.connect] never fails. *)
Definition connect_unreachable (db : dbConnection.t)
    : dbConnection.t * option error * list event :=
  (db, Some (Errorf "connection refused"), [DbConnect]).

Definition req0 : option request :=
  Some {| w := Some 1%nat; r := Some {| URL := Some "/"; Method := "GET" |} |}.

(** The pool that [newWorkerPool 1] builds. *)
Definition pool1 : workerPool.t :=
  {| workerPool.size := 1; workerPool.workers := 0;
     workerPool.requestCh := mkChan [] 2 false;
     workerPool.stopCh := false; workerPool.wg := 0 |}.

(** The server that [main] builds and starts. *)
Definition server0 : Server := (Start (NewServer cfg0)).2.

(** The server after a [Start] that could not reach its database. *)
Definition server_unreachable : Server :=
  (Start_with connect_unreachable (NewServer cfg0)).2.

(** ** The placement of keys in the sharded map *)

Section MapPlacement.
Context {K : Type} `{Countable K} {V : Type}.
Variable repr : K → ShardedMap.key_repr.



End MapPlacement.

(** ** handleRequest *)

(** [handleRequest] for the writer [wr] and the HTTP request [hr]: every way
    the call can end, with the server it leaves; the empty list means that
    the call blocks in [submit]. *)
Definition handleRequest (wr : nat) (hr : httpRequest) (s : Server)
    : list (res unit * Server) :=
  (* Check if server is shutting down *)
  if shutdownCh s then
    [emit [Resp wr (HttpError "Server is shutting down" 503)] s]
  else
    (* Submit request to worker pool *)
    let req := {| w := Some wr; r := Some hr |} in
    match workerPool s with
    | None => [(Panic "invalid memory address or nil pointer dereference", s)]
    | Some wp =>
        (λ '(out, wp'),
           match out with
           | Ok None => set_workerPool (Some wp') s
           | Ok (Some _) => emit [Resp wr (HttpError "Service unavailable" 503)] s
           | Panic msg => (Panic msg, s)
           end)
        <$> workerPool.submit (workerPool.ctx_err (rootCtx s)) wp (Some req)
    end.

(** ** cacheWarmer.start *)

(** The cases the [select] of [cacheWarmer.start] takes, one per iteration. *)
Inductive cw_case : Type :=
| CwCtxDone
| CwTick.

Inductive cw_event : Type :=
| CwLog (msg : string)
| CwSleep (ms : Z)
| CwTickerStop
| CwWgDone.

#[global] Instance cw_case_eq_dec : EqDecision cw_case.
Proof. solve_decision. Defined.
#[global] Instance cw_event_eq_dec : EqDecision cw_event.
Proof. solve_decision. Defined.

Definition warmCache : list cw_event :=
  [CwLog "warming cache"; CwSleep 100; CwLog "cache warmed"].

(** The loop of [start], along the cases its [select] takes; the flag tells
    whether the loop was left by [return].  When the cases run out the
    goroutine is waiting in the [select]. *)
Fixpoint cacheWarmer_loop (cases : list cw_case) : list cw_event * bool :=
  match cases with
  | [] => ([], false)
  | CwCtxDone :: _ => ([CwLog "cache warmer context cancelled"], true)
  | CwTick :: cases =>
      let '(evs, returned) := cacheWarmer_loop cases in
      (warmCache ++ evs, returned)
  end.

(** [start]: the deferred calls run when the function returns, last
    deferred first: [cw.ticker.Stop()], then [wg.Done()]. *)
Definition cacheWarmer_start (cases : list cw_case) : list cw_event * bool :=
  let '(evs, returned) := cacheWarmer_loop cases in
  ([CwLog "cache warmer started"] ++ evs
   ++ (if returned then [CwTickerStop; CwWgDone] else []),
   returned).

(** The ticks taken before the first cancellation case. *)
Fixpoint ticks_before_cancel (cases : list cw_case) : nat :=
  match cases with
  | CwTick :: cases => S (ticks_before_cancel cases)
  | _ => 0%nat
  end.

(** ** Further concrete inputs *)

Definition is_worker_action (a : workerPool.action) : bool :=
  match a with workerPool.AWorker _ _ => true | _ => false end.

Definition hr0 : httpRequest := {| URL := Some "/"; Method := "GET" |}.

(** A pool of one worker whose queue holds two items, the second one nil. *)
Definition pool1_full : workerPool.t :=
  {| workerPool.size := 1; workerPool.workers := 0;
     workerPool.requestCh := mkChan [req0; None] 2 false;
     workerPool.stopCh := false; workerPool.wg := 0 |}.

(** * Properties of the sharded map *)

Section ShardedMapProofs.
Import ShardedMap.
Context {K : Type} `{Countable K} {V : Type}.
Variable repr : K → key_repr.

Implicit Types (sm : ShardedMap K V) (key : K).












End ShardedMapProofs.


(** * Properties of the connection handle *)

(** Closing a handle that holds no connection does nothing and succeeds. *)
Lemma close_unopened (closeErr : option error) (db : dbConnection.t) :
  dbConnection.is_open db = false → dbConnection.close closeErr db = (db, None, []).
Proof. destruct db as [[c|]]; [discriminate|reflexivity]. Qed.

(** C5, as stated, fails: when the connection's [Close] fails, the handle
    keeps its connection, and the next [close] calls [Close] again. *)
Lemma close_failure_stays_open :
  let db := {| dbConnection.conn := Some {| dbConnection.peerClosed := true |} |} in
  let '(db', err, _) := dbConnection.close (Some (Errorf "broken pipe")) db in
  err = Some (Wrapf "failed to close database connection" (Errorf "broken pipe"))
  ∧ dbConnection.is_open db' = true
  ∧ dbConnection.close None db' ≠ (db', None, []).
Proof. cbn. repeat split. discriminate. Qed.

(** C5, amended.  [close] on a handle without a connection (never opened, or
    closed) succeeds and changes nothing.  On an open handle it calls the
    connection's [Close]: if that succeeds the handle loses its connection,
    [close] returns nil, and every later [close] is a no-op success; if it
    fails, [close] returns that error, wrapped, and the handle keeps its
    connection. *)
Theorem close_idempotent_unless_failed (closeErr : option error) (db : dbConnection.t) :
  let '(db', err, evs) := dbConnection.close closeErr db in
  (dbConnection.is_open db = false → db' = db ∧ err = None ∧ evs = [])
  ∧ (dbConnection.is_open db = true → closeErr = None →
       dbConnection.is_open db' = false ∧ err = None
       ∧ ∀ closeErr', dbConnection.close closeErr' db' = (db', None, []))
  ∧ (dbConnection.is_open db = true → ∀ e, closeErr = Some e →
       db' = db ∧ err = Some (Wrapf "failed to close database connection" e)
       ∧ ConnClose ∈ evs).
Proof.
  destruct db as [[c|]], closeErr as [e|]; cbn; repeat split; try done.
  all: intros; simplify_eq; set_solver.
Qed.

(** * Properties of [Stop] and [Start] *)

Lemma precedes_here (a b : event) (tr : list event) : b ∈ tr → precedes a b (a :: tr).
Proof.
  intros (l2 & l3 & ->)%list_elem_of_split. by exists [], l2, l3.
Qed.

Lemma precedes_cons (a b x : event) (tr : list event) :
  precedes a b tr → precedes a b (x :: tr).
Proof. intros (l1 & l2 & l3 & ->). by exists (x :: l1), l2, l3. Qed.

(** Membership in a list that is written out. *)
Ltac solve_elem_of :=
  repeat first [ apply list_elem_of_here | apply list_elem_of_further ].

Ltac solve_precedes :=
  repeat first [ apply precedes_here; solve [solve_elem_of] | apply precedes_cons ].

(** Case analysis on a started server and on what a run of the protocol
    observes; [H] is the hypothesis [started s = true]. *)
Ltac started_cases s env H :=
  destruct s as [cfg [hs|] [[sz wk ch [|] pwg]|] cw [[[c|]]|] [|] [|] rctx n tr];
  try discriminate H; clear H;
  destruct env as [[e1|] [|e2] [|e3] [e4|]];
  cbn.

(** After a successful [Start] of a fresh server, [started] holds. *)
Lemma Start_started (cfg : Config) :
  0 ≤ to_int (WorkerPoolSize cfg * 2) →
  ∃ s, Start (NewServer cfg) = (Ok None, s) ∧ started s = true.
Proof.
  intros Hsz. unfold Start, Start_with, workerPool.newWorkerPool, make_chan.
  cbn. rewrite bool_decide_eq_false_2 by lia. cbn. eauto.
Qed.

(** The repository's [Start] never returns an error: [connect] cannot fail. *)
Lemma Start_never_fails (s : Server) (err : error) : (Start s).1 ≠ Ok (Some err).
Proof.
  unfold Start, Start_with, workerPool.newWorkerPool, make_chan. cbn.
  case_bool_decide; cbn; discriminate.
Qed.

(** [Stop] on a server that was never started panics on the nil
    [httpServer], after cancelling the root context. *)
Lemma stop_without_start_panics (cfg : Config) (env : stopEnv) :
  (Stop env (NewServer cfg)).1
  = Panic "invalid memory address or nil pointer dereference".
Proof. reflexivity. Qed.

Example stop_server_unreachable_panics :
  (Stop env_ok server_unreachable).1
  = Panic "invalid memory address or nil pointer dereference".
Proof. reflexivity. Qed.

(** C1, as stated, fails: with a context that is already cancelled, the
    first [Stop] returns the worker pool's timeout, the second returns nil. *)
Lemma stop_twice_results_differ :
  let '(r1, s1) := Stop env_timeout server0 in
  let '(r2, _) := Stop env_timeout s1 in
  r1 = Ok (Some (Wrapf "worker pool shutdown"
                  (Wrapf "worker pool stop timeout" context_Canceled)))
  ∧ r2 = Ok None
  ∧ r1 ≠ r2.
Proof. vm_compute. repeat split. discriminate. Qed.

(** C1, amended.  Of two calls of [Stop] on a started server, the first runs
    the shutdown protocol, once, and returns its aggregate error (the first
    error among the steps); the second runs nothing, changes nothing and
    returns nil, whatever the first returned.  (Calls that overlap in time
    are ordered by [sync.Once]: the later one returns only after the body
    has ended, so it is the second call here.) *)
Theorem stop_runs_once_later_calls_nil (env1 env2 : stopEnv) (s : Server) :
  started s = true →
  ∃ db s1 tr,
    dbConn s = Some db
    ∧ Stop env1 s = (Ok (first_error (step_errors env1 db)), s1)
    ∧ trace s1 = trace s ++ tr
    ∧ count_occ event_eq_dec tr RootCancel = 1%nat
    ∧ count_occ event_eq_dec tr DbClose = 1%nat
    ∧ Stop env2 s1 = (Ok None, s1).
Proof.
  intros Hs. started_cases s env1 Hs.
  all: eexists _, _, _; split; [reflexivity|]; split; [reflexivity|].
  all: cbn; rewrite <- ?app_assoc; split; [reflexivity|].
  all: repeat split.
Qed.

Lemma stop_runs_once_later_calls_nil_witness :
  started server0 = true
  ∧ ∃ db s1 tr,
      dbConn server0 = Some db
      ∧ Stop env_timeout server0 = (Ok (first_error (step_errors env_timeout db)), s1)
      ∧ trace s1 = trace server0 ++ tr
      ∧ count_occ event_eq_dec tr RootCancel = 1%nat
      ∧ count_occ event_eq_dec tr DbClose = 1%nat
      ∧ Stop env_ok s1 = (Ok None, s1).
Proof.
  split; [reflexivity|].
  apply (stop_runs_once_later_calls_nil env_timeout env_ok server0). reflexivity.
Defined.

(** C2, as stated, fails: [Stop] cancels the root context first and shuts
    the HTTP server down after that. *)
Lemma stop_cancels_root_before_ingress :
  let tr := trace (Stop env_ok server0).2 in
  before HttpShutdown RootCancel tr = false
  ∧ before RootCancel HttpShutdown tr = true.
Proof. vm_compute. split; reflexivity. Qed.

(** C2, amended.  A run of the shutdown protocol on a started server
    executes its actions in this order, each after the one before has
    returned: the root context is cancelled, the HTTP server is shut down
    (ingress stopped), the pool's stop channel is closed and the pool is
    waited for, the wait group is waited for, the connection handle is
    closed (calling the connection's [Close] if it is open), and the
    shutdown channel is closed. *)
Theorem stop_phase_order (env : stopEnv) (s : Server) :
  started s = true →
  ∃ db r s' tr,
    dbConn s = Some db
    ∧ Stop env s = (Ok r, s')
    ∧ trace s' = trace s ++ tr
    ∧ actions tr =
        [RootCancel; HttpShutdown; CloseStopCh; PoolWait (poolWait env);
         WgWait (wgWait env); DbClose]
        ++ (if dbConnection.is_open db then [ConnClose] else [])
        ++ [CloseShutdownCh].
Proof.
  intros Hs. started_cases s env Hs.
  all: eexists _, _, _, _; split; [reflexivity|]; split; [reflexivity|].
  all: cbn; rewrite <- ?app_assoc; split; reflexivity.
Qed.

Lemma stop_phase_order_witness :
  started server0 = true
  ∧ ∃ db r s' tr,
      dbConn server0 = Some db
      ∧ Stop env_ok server0 = (Ok r, s')
      ∧ trace s' = trace server0 ++ tr
      ∧ actions tr =
          [RootCancel; HttpShutdown; CloseStopCh; PoolWait (poolWait env_ok);
           WgWait (wgWait env_ok); DbClose]
          ++ (if dbConnection.is_open db then [ConnClose] else [])
          ++ [CloseShutdownCh].
Proof.
  split; [reflexivity|].
  apply (stop_phase_order env_ok server0). reflexivity.
Defined.

(** C6.  In every run of the shutdown protocol on a started server, whatever
    the two bounded waits observe, [Stop] goes on to close the connection
    handle and returns.  The close comes after both waits; if the
    connection's [Close] succeeds the handle is closed afterwards.  When a
    wait ends by the context's deadline, the timeout is logged, [Stop]
    returns a non-nil error, and that error is the timeout when no earlier
    step failed. *)
Theorem stop_closes_resource_after_any_wait (env : stopEnv) (s : Server) :
  started s = true →
  ∃ r s' tr db',
    Stop env s = (Ok r, s')
    ∧ trace s' = trace s ++ tr
    ∧ precedes (PoolWait (poolWait env)) DbClose tr
    ∧ precedes (WgWait (wgWait env)) DbClose tr
    ∧ dbConn s' = Some db'
    ∧ (connCloseErr env = None → dbConnection.is_open db' = false)
    ∧ (poolWait env ≠ WaitDone ∨ wgWait env ≠ WaitDone → r ≠ None)
    ∧ (httpShutdownErr env = None → poolWait env = WaitDone →
       wgWait env ≠ WaitDone → r = Some (Errorf "shutdown timeout exceeded"))
    ∧ (httpShutdownErr env = None → ∀ ctxErr, poolWait env = WaitCtxDone ctxErr →
       r = Some (Wrapf "worker pool shutdown" (Wrapf "worker pool stop timeout" ctxErr)))
    ∧ (poolWait env ≠ WaitDone → Log "worker pool shutdown error" ∈ tr)
    ∧ (wgWait env ≠ WaitDone →
       Log "shutdown timeout exceeded while waiting for goroutines" ∈ tr).
Proof.
  intros Hs. started_cases s env Hs.
  all: eexists _, _, _, _; split; [reflexivity|].
  all: cbn; rewrite <- ?app_assoc; split; [reflexivity|].
  all: split; [solve_precedes|]; split; [solve_precedes|].
  all: split; [reflexivity|].
  all: repeat split; try done; try (intros [?|?]; done).
  all: try (intros; simplify_eq; done).
  all: intros _; solve_elem_of.
Qed.

Lemma stop_closes_resource_after_any_wait_witness :
  started server0 = true
  ∧ ∃ r s' tr db',
      Stop env_timeout server0 = (Ok r, s')
      ∧ trace s' = trace server0 ++ tr
      ∧ precedes (PoolWait (poolWait env_timeout)) DbClose tr
      ∧ precedes (WgWait (wgWait env_timeout)) DbClose tr
      ∧ dbConn s' = Some db'
      ∧ (connCloseErr env_timeout = None → dbConnection.is_open db' = false)
      ∧ (poolWait env_timeout ≠ WaitDone ∨ wgWait env_timeout ≠ WaitDone → r ≠ None)
      ∧ (httpShutdownErr env_timeout = None → poolWait env_timeout = WaitDone →
         wgWait env_timeout ≠ WaitDone → r = Some (Errorf "shutdown timeout exceeded"))
      ∧ (httpShutdownErr env_timeout = None →
         ∀ ctxErr, poolWait env_timeout = WaitCtxDone ctxErr →
         r = Some (Wrapf "worker pool shutdown"
                     (Wrapf "worker pool stop timeout" ctxErr)))
      ∧ (poolWait env_timeout ≠ WaitDone → Log "worker pool shutdown error" ∈ tr)
      ∧ (wgWait env_timeout ≠ WaitDone →
         Log "shutdown timeout exceeded while waiting for goroutines" ∈ tr).
Proof.
  split; [reflexivity|].
  apply (stop_closes_resource_after_any_wait env_timeout server0). reflexivity.
Defined.




(** C9: the code at the failing input.  When [connect] fails, [Start]
    returns the wrapped error and leaves [httpServer] and [workerPool] nil;
    [Stop] then cancels the root context and panics on the nil
    [httpServer]. *)
Theorem stop_after_failed_start_panics
    (connect : dbConnection.t → dbConnection.t * option error * list event)
    (cfg : Config) (env : stopEnv) (db : dbConnection.t) (err : error)
    (evs : list event) :
  connect dbConnection.newDBConnection = (db, Some err, evs) →
  ∃ s s',
    Start_with connect (NewServer cfg)
      = (Ok (Some (Wrapf "failed to connect to database" err)), s)
    ∧ httpServer s = None
    ∧ Stop env s = (Panic "invalid memory address or nil pointer dereference", s')
    ∧ actions (trace s') = actions (trace s) ++ [RootCancel].
Proof.
  intros Hc. unfold Start_with. cbn. rewrite Hc. cbn.
  eexists _, _. split; [reflexivity|]. split; [reflexivity|].
  cbn. split; [reflexivity|].
  unfold actions. cbn. rewrite !List.filter_app. cbn. by rewrite app_nil_r.
Qed.

Lemma stop_after_failed_start_panics_witness :
  connect_unreachable dbConnection.newDBConnection
    = (dbConnection.newDBConnection, Some (Errorf "connection refused"), [DbConnect])
  ∧ ∃ s s',
      Start_with connect_unreachable (NewServer cfg0)
        = (Ok (Some (Wrapf "failed to connect to database"
                       (Errorf "connection refused"))), s)
      ∧ httpServer s = None
      ∧ Stop env_ok s = (Panic "invalid memory address or nil pointer dereference", s')
      ∧ actions (trace s') = actions (trace s) ++ [RootCancel].
Proof.
  split; [reflexivity|].
  apply (stop_after_failed_start_panics connect_unreachable cfg0 env_ok
           dbConnection.newDBConnection (Errorf "connection refused") [DbConnect]).
  reflexivity.
Defined.

(** * Properties of the worker pool *)

Section WorkerPoolProofs.
Import workerPool.

(** C4, as stated, fails: a request taken at time 0, with the pool's context
    cancelled at 50 ms, is answered "Request cancelled" and never gets its
    200 response. *)
Lemma processRequest_cut_short_by_pool_cancel :
  processRequest 0 (Some 50) req0 3
    = [[Log "processing request"; Resp 1 (HttpError "Request cancelled" 408)]]
  ∧ forallb (completed 1) (processRequest 0 (Some 50) req0 3) = false.
Proof. vm_compute. split; reflexivity. Qed.

(** C4, amended.  A request with an HTTP request and a writer, taken at time
    [now], is always processed in some way, and in one of two: it gets the
    200 response of the worker, which happens only if the pool's context is
    not cancelled before the 100 ms of work are over; or it gets "Request
    cancelled" (408), which happens only if the pool's context is cancelled
    by then.  No deadline of the item itself takes part. *)
Theorem processRequest_done_or_cancelled
    (now : Z) (cancelAt : option Z) (wr : nat) (hr : httpRequest) (workerID : Z) :
  let runs :=
    processRequest now cancelAt (Some {| w := Some wr; r := Some hr |}) workerID in
  runs ≠ []
  ∧ ∀ run, run ∈ runs →
      (run = [Log "processing request"; Resp wr (WriteHeader 200);
              Resp wr (Write ("OK - processed by worker " +:+ pretty workerID
                              +:+ newline))]
       ∧ ∀ tc, cancelAt = Some tc → now + 100 ≤ tc)
      ∨ (run = [Log "processing request";
                Resp wr (HttpError "Request cancelled" 408)]
         ∧ ∃ tc, cancelAt = Some tc ∧ tc ≤ now + 100).
Proof.
  unfold processRequest, work_ready. destruct cancelAt as [tc|]; cbn.
  - repeat case_bool_decide; cbn; (split; [done|]); intros run Hrun.
    all: repeat (apply elem_of_cons in Hrun as [->|Hrun]);
      try (by apply elem_of_nil in Hrun).
    + right. split; [done|]. exists tc. split; [done|lia].
    + left. split; [done|]. intros ? [= <-]. lia.
    + right. split; [done|]. exists tc. split; [done|lia].
    + left. split; [done|]. intros ? [= <-]. lia.
  - split; [done|]. intros run Hrun.
    apply list_elem_of_singleton in Hrun as ->. left. split; [done|]. discriminate.
Qed.

(** While the request channel is open, [submit] ends in exactly the three
    ways of its [select]. *)
Lemma submit_open_three_ways (ctx : option error) (wp : t) (req : option request)
    (out : res (option error)) (wp' : t) :
  closed (requestCh wp) = false →
  (out, wp') ∈ submit ctx wp req →
  (out = Ok None ∧ buf (requestCh wp') = buf (requestCh wp) ++ [req])
  ∨ (is_Some ctx ∧ out = Ok ctx ∧ wp' = wp)
  ∨ (stopCh wp = true ∧ out = Ok (Some (Errorf "worker pool is shutting down"))
     ∧ wp' = wp).
Proof.
  intros Hopen (c & _ & Hc)%list_elem_of_omap.
  destruct c; cbn in Hc.
  - right; left. destruct ctx as [e|]; by simplify_eq.
  - right; right. destruct (stopCh wp); by simplify_eq.
  - left. unfold send in Hc. rewrite Hopen in Hc.
    case_bool_decide; by simplify_eq.
Qed.

(** C8: the code at the failing input.  Once the context is cancelled and
    [start] has closed the request channel, a [submit] can return the
    context's error, and it can panic with "send on closed channel". *)
Theorem submit_on_closed_queue_can_panic :
  newWorkerPool 1 = Ok pool1
  ∧ ∃ st, exec [ACancel; ACloseRequestCh] (start pool1) = Some st
      ∧ submit (ctx_err (ctxDone st)) (pool st) req0
        = [(Ok (Some context_Canceled), pool st);
           (Panic "send on closed channel", pool st)].
Proof. split; [reflexivity|]. eexists. split; reflexivity. Qed.

Lemma step_fifo (a : action) (s s' : sys) : step a s = Some s' → fifo s → fifo s'.
Proof.
  unfold fifo, pending. destruct s as [done wp run acc proc].
  destruct wp as [sz wk [b cp cl] stp pwg].
  destruct a as [c req|id c| | |]; cbn.
  - destruct c; cbn.
    + destruct done; cbn; [by intros [= <-]|discriminate].
    + destruct stp; [by intros [= <-]|discriminate].
    + unfold send; cbn. destruct cl; cbn; [by intros [= <-]|].
      case_bool_decide; cbn; [|discriminate].
      intros [= <-] ->; cbn. by rewrite app_assoc.
  - case_bool_decide; [|discriminate].
    destruct c; cbn.
    + destruct done; [by intros [= <-]|discriminate].
    + unfold recv; cbn. destruct b as [|req rest]; cbn.
      * destruct cl; [by intros [= <-]|discriminate].
      * intros [= <-] ->; cbn. by rewrite fmap_app, <- app_assoc.
  - by intros [= <-].
  - destruct stp; [discriminate|]. by intros [= <-].
  - destruct ((done || stp) && negb cl); [|discriminate]. by intros [= <-].
Qed.

Lemma exec_fifo (acts : list action) (s s' : sys) :
  exec acts s = Some s' → fifo s → fifo s'.
Proof.
  revert s. induction acts as [|a acts IH]; intros s; cbn.
  - by intros [= <-].
  - destruct (step a s) as [s1|] eqn:Hstep; [|discriminate].
    intros Hexec Hs. eapply IH; [done|]. by eapply step_fifo.
Qed.

(** What one iteration of a worker does, and when it may return. *)
Lemma worker_step_cases (id : Z) (c : worker_case) (s s' : sys) :
  step (AWorker id c) s = Some s' →
  ((id ∉ running s') ∧ processed s' = processed s ∧ pending s' = pending s
   ∧ (ctxDone s = true ∨ (pending s = [] ∧ closed (requestCh (pool s)) = true)))
  ∨ (id ∈ running s'
     ∧ ∃ req, pending s = req :: pending s'
         ∧ processed s' = processed s ++ [(id, req)]).
Proof.
  unfold pending. destruct s as [done wp run acc proc].
  destruct wp as [sz wk [b cp cl] stp pwg]. cbn.
  case_bool_decide as Hid; [|discriminate].
  assert (id ∉ List.filter (λ j, negb (j =? id)) run) as Hout.
  { rewrite list_elem_of_In, List.filter_In, Z.eqb_refl. by intros [_ ?]. }
  destruct c; cbn.
  - destruct done; [|discriminate].
    intros [= <-]; cbn. left. repeat split; [done|]. by left.
  - unfold recv; cbn. destruct b as [|req rest]; cbn.
    + destruct cl; [|discriminate].
      intros [= <-]; cbn. left. repeat split; [done|]. by right.
    + intros [= <-]; cbn. right. split; [done|]. by exists req.
Qed.

(** C3, as stated, fails: an item is accepted, the context is cancelled, and
    the only worker takes the [ctx.Done()] case and returns; the item stays
    in the queue and is never processed. *)
Lemma worker_exits_with_item_pending :
  exec [ASubmit SubmitSend req0; ACancel; AWorker 0 WorkerCtxDone] (start pool1)
  = Some {| ctxDone := true;
            pool := {| size := 1; workers := 1;
                       requestCh := mkChan [req0] 2 false;
                       stopCh := false; wg := 1 |};
            running := [];
            accepted := [req0];
            processed := [] |}.
Proof. reflexivity. Qed.

(** C3, amended.  In every state a started pool can reach, the accepted
    items are the processed items followed by the queued items, in order: an
    accepted item is handed to [processRequest] at most once, by the worker
    that took it, and is otherwise still in the queue.  A worker's iteration
    either takes the head of the queue and processes it, or returns; it
    returns only if the context is cancelled or the queue is empty and
    closed.  So a worker whose context is not cancelled never returns while
    an item is pending, and one whose context is cancelled may. *)
Theorem worker_takes_once_exits_on_cancel_or_drained
    (wp : t) (acts : list action) (st : sys) :
  buf (requestCh wp) = [] →
  exec acts (start wp) = Some st →
  accepted st = ((processed st).*2) ++ pending st
  ∧ ∀ id c st', step (AWorker id c) st = Some st' →
      ((id ∉ running st') ∧ processed st' = processed st ∧ pending st' = pending st
       ∧ (ctxDone st = true
          ∨ (pending st = [] ∧ closed (requestCh (pool st)) = true)))
      ∨ (id ∈ running st'
         ∧ ∃ req, pending st = req :: pending st'
             ∧ processed st' = processed st ++ [(id, req)]).
Proof.
  intros Hempty Hexec. split.
  - apply (exec_fifo acts (start wp) st Hexec).
    unfold fifo, pending. cbn. by rewrite Hempty.
  - intros id c st'. apply worker_step_cases.
Qed.

Lemma worker_takes_once_exits_on_cancel_or_drained_witness :
  buf (requestCh pool1) = []
  ∧ ∃ st,
      exec [ASubmit SubmitSend req0; ASubmit SubmitSend None;
            AWorker 0 WorkerRecv; ACancel; ACloseRequestCh;
            AWorker 0 WorkerCtxDone] (start pool1) = Some st
      ∧ accepted st = ((processed st).*2) ++ pending st
      ∧ ∀ id c st', step (AWorker id c) st = Some st' →
          ((id ∉ running st') ∧ processed st' = processed st
           ∧ pending st' = pending st
           ∧ (ctxDone st = true
              ∨ (pending st = [] ∧ closed (requestCh (pool st)) = true)))
          ∨ (id ∈ running st'
             ∧ ∃ req, pending st = req :: pending st'
                 ∧ processed st' = processed st ++ [(id, req)]).
Proof.
  split; [reflexivity|].
  eexists. split; [reflexivity|].
  apply (worker_takes_once_exits_on_cancel_or_drained pool1
           [ASubmit SubmitSend req0; ASubmit SubmitSend None;
            AWorker 0 WorkerRecv; ACancel; ACloseRequestCh;
            AWorker 0 WorkerCtxDone]); reflexivity.
Defined.

End WorkerPoolProofs.

(** * Laws of the sharded map *)

Section ShardedMapLaws.
Import ShardedMap.
Context {K : Type} `{Countable K} {V : Type}.
Variable repr : K → key_repr.

Implicit Types (sm : ShardedMap K V) (key : K) (value : V).





















End ShardedMapLaws.






(** * Laws of the worker pool *)

Section WorkerPoolLaws.
Import workerPool.

(** A property that every step keeps holds along every execution. *)
Lemma exec_invariant (P : sys → Prop) (acts : list action) (s s' : sys) :
  (∀ a s1 s2, step a s1 = Some s2 → P s1 → P s2) →
  exec acts s = Some s' → P s → P s'.
Proof.
  intros Hstep. revert s. induction acts as [|a acts IH]; intros s; cbn.
  - by intros [= <-].
  - destruct (step a s) as [s1|] eqn:Ha; [|discriminate].
    intros Hexec Hs. apply (IH s1 Hexec). by apply (Hstep a s).
Qed.

(** What [submit] does to the pool, by the way it ends. *)
Lemma submit_effect (ctx : option error) (wp wp' : t)
    (req : option request) (out : res (option error)) :
  (out, wp') ∈ submit ctx wp req →
  (out = Ok None →
     wp' = with_requestCh wp
             (mkChan (buf (requestCh wp) ++ [req]) (cap (requestCh wp)) false)
     ∧ closed (requestCh wp) = false
     ∧ Z.of_nat (length (buf (requestCh wp'))) ≤ cap (requestCh wp'))
  ∧ (out ≠ Ok None → wp' = wp).
Proof.
  intros (c & _ & Hc)%list_elem_of_omap.
  destruct c; cbn in Hc.
  - destruct ctx as [e|]; simplify_eq. split; [done|]. done.
  - destruct (stopCh wp); simplify_eq. split; [done|]. done.
  - unfold send in Hc. destruct (closed (requestCh wp)) eqn:Hcl.
    + simplify_eq. split; [done|]. done.
    + case_bool_decide as Hroom; simplify_eq. split; [|done].
      intros _. repeat split. cbn. rewrite length_app. cbn. lia.
Qed.

(** X6.  Whatever way [submit] ends: if it returns nil, the item has been
    appended to the open queue, within its capacity, and nothing else has
    changed; if it returns an error or panics, the pool is unchanged. *)
Theorem submit_enqueues_iff_nil (ctx : option error) (wp wp' : t)
    (req : option request) (out : res (option error)) :
  (out, wp') ∈ submit ctx wp req →
  (out = Ok None →
     wp' = with_requestCh wp
             (mkChan (buf (requestCh wp) ++ [req]) (cap (requestCh wp)) false)
     ∧ closed (requestCh wp) = false
     ∧ Z.of_nat (length (buf (requestCh wp'))) ≤ cap (requestCh wp'))
  ∧ (out ≠ Ok None → wp' = wp).
Proof. intros Hin. split; intros Hout; by apply (submit_effect ctx wp wp' req out Hin). Qed.

Lemma submit_enqueues_iff_nil_witness :
  (Ok None, with_requestCh pool1 (mkChan [req0] 2 false)) ∈ submit None pool1 req0
  ∧ (Ok (@None error) = Ok None →
       with_requestCh pool1 (mkChan [req0] 2 false)
       = with_requestCh pool1
           (mkChan (buf (requestCh pool1) ++ [req0]) (cap (requestCh pool1)) false)
       ∧ closed (requestCh pool1) = false
       ∧ Z.of_nat (length (buf (requestCh
                     (with_requestCh pool1 (mkChan [req0] 2 false)))))
         ≤ cap (requestCh (with_requestCh pool1 (mkChan [req0] 2 false))))
    ∧ (Ok (@None error) ≠ Ok None →
       with_requestCh pool1 (mkChan [req0] 2 false) = pool1).
Proof.
  assert ((Ok None, with_requestCh pool1 (mkChan [req0] 2 false))
          ∈ submit None pool1 req0) as Hin.
  { vm_compute. apply list_elem_of_here. }
  split; [exact Hin|].
  exact (submit_enqueues_iff_nil None pool1 _ req0 (Ok None) Hin).
Defined.

(** X7.  [submit] blocks exactly when the caller's context is not done, the
    stop channel is open, and the request channel is open and full. *)
Theorem submit_blocks_iff (ctx : option error) (wp : t) (req : option request) :
  submit ctx wp req = []
  ↔ ctx = None ∧ stopCh wp = false ∧ closed (requestCh wp) = false
    ∧ cap (requestCh wp) ≤ Z.of_nat (length (buf (requestCh wp))).
Proof.
  unfold submit. cbn. unfold send.
  destruct ctx as [e|], (stopCh wp), (closed (requestCh wp)); cbn;
    try case_bool_decide; cbn;
    (split; [intros Heq|intros (? & ? & ? & ?)]);
    first [done | lia | (repeat split; lia)].
Qed.

(** One step keeps the queue within its capacity and keeps the capacity. *)
Lemma step_queue_bounded (a : action) (s s' : sys) :
  step a s = Some s' →
  Z.of_nat (length (pending s)) ≤ cap (requestCh (pool s)) →
  Z.of_nat (length (pending s')) ≤ cap (requestCh (pool s'))
  ∧ cap (requestCh (pool s')) = cap (requestCh (pool s)).
Proof.
  unfold pending. destruct s as [done wp run acc proc].
  destruct wp as [sz wk [b cp cl] stp pwg].
  destruct a as [c req|id c| | |]; cbn.
  - destruct c; cbn.
    + destruct done; cbn; [by intros [= <-]|discriminate].
    + destruct stp; [by intros [= <-]|discriminate].
    + unfold send; cbn. destruct cl; cbn; [by intros [= <-]|].
      case_bool_decide; cbn; [|discriminate].
      intros [= <-] ?; cbn. rewrite length_app. cbn. lia.
  - case_bool_decide; [|discriminate].
    destruct c; cbn.
    + destruct done; [by intros [= <-]|discriminate].
    + unfold recv; cbn. destruct b as [|req rest]; cbn.
      * destruct cl; [by intros [= <-]|discriminate].
      * intros [= <-] ?; cbn. lia.
  - by intros [= <-].
  - destruct stp; [discriminate|]. by intros [= <-].
  - destruct ((done || stp) && negb cl); [|discriminate]. by intros [= <-].
Qed.

(** X8.  The queue is bounded: in every state a pool built by
    [newWorkerPool] can reach, at most [size * 2] items are waiting. *)
Theorem queue_never_exceeds_capacity (size : Z) (wp : t) (acts : list action)
    (st : sys) :
  newWorkerPool size = Ok wp →
  exec acts (start wp) = Some st →
  Z.of_nat (length (pending st)) ≤ to_int (size * 2)
  ∧ cap (requestCh (pool st)) = to_int (size * 2).
Proof.
  unfold newWorkerPool, make_chan. case_bool_decide as Hsz; cbn; [discriminate|].
  intros [= <-] Hexec.
  refine (exec_invariant
            (λ s, Z.of_nat (length (pending s)) ≤ to_int (size * 2)
                  ∧ cap (requestCh (pool s)) = to_int (size * 2))
            acts _ st _ Hexec _).
  - intros a s1 s2 Hstep [Hlen Hcap].
    destruct (step_queue_bounded a s1 s2 Hstep) as [Hlen' Hcap']; [lia|].
    split; lia.
  - unfold pending. cbn. split; [lia|done].
Qed.

Lemma queue_never_exceeds_capacity_witness :
  newWorkerPool 1 = Ok pool1
  ∧ exec [ASubmit SubmitSend req0; ASubmit SubmitSend None] (start pool1)
    = Some {| ctxDone := false;
              pool := {| size := 1; workers := 1;
                         requestCh := mkChan [req0; None] 2 false;
                         stopCh := false; wg := 1 |};
              running := [0];
              accepted := [req0; None];
              processed := [] |}
  ∧ Z.of_nat (length [req0; None]) ≤ to_int (1 * 2)
  ∧ cap (mkChan [req0; (None : option request)] 2 false) = to_int (1 * 2).
Proof.
  split; [reflexivity|]. split; [reflexivity|].
  apply (queue_never_exceeds_capacity 1 pool1
           [ASubmit SubmitSend req0; ASubmit SubmitSend None]
           {| ctxDone := false;
              pool := {| size := 1; workers := 1;
                         requestCh := mkChan [req0; None] 2 false;
                         stopCh := false; wg := 1 |};
              running := [0];
              accepted := [req0; None];
              processed := [] |}); reflexivity.
Defined.

(** One step from a state whose request channel is closed. *)
Lemma step_closed (a : action) (s s' : sys) :
  step a s = Some s' →
  closed (requestCh (pool s)) = true →
  closed (requestCh (pool s')) = true
  ∧ accepted s' = accepted s
  ∧ (length (pending s') ≤ length (pending s))%nat.
Proof.
  unfold pending. destruct s as [done wp run acc proc].
  destruct wp as [sz wk [b cp cl] stp pwg].
  destruct a as [c req|id c| | |]; cbn; intros Hstep ->; revert Hstep; cbn.
  - destruct c; cbn.
    + destruct done; cbn; [by intros [= <-]|discriminate].
    + destruct stp; [by intros [= <-]|discriminate].
    + by intros [= <-].
  - case_bool_decide; [|discriminate].
    destruct c; cbn.
    + destruct done; [by intros [= <-]|discriminate].
    + unfold recv; cbn. destruct b as [|req rest]; cbn; intros [= <-]; cbn.
      * done.
      * repeat split. lia.
  - by intros [= <-].
  - destruct stp; [discriminate|]. by intros [= <-].
  - rewrite andb_false_r. discriminate.
Qed.

(** X9.  Closing the request channel is final: from then on the channel
    stays closed, no [submit] is accepted any more, and the queue only
    shrinks. *)
Theorem nothing_accepted_after_close (acts : list action) (s s' : sys) :
  exec acts s = Some s' →
  closed (requestCh (pool s)) = true →
  closed (requestCh (pool s')) = true
  ∧ accepted s' = accepted s
  ∧ (length (pending s') ≤ length (pending s))%nat.
Proof.
  intros Hexec Hcl.
  refine (exec_invariant
            (λ s1, closed (requestCh (pool s1)) = true
                   ∧ accepted s1 = accepted s
                   ∧ (length (pending s1) ≤ length (pending s))%nat)
            acts s s' _ Hexec _); [|done].
  intros a s1 s2 Hstep (Hc1 & Ha1 & Hl1).
  destruct (step_closed a s1 s2 Hstep Hc1) as (? & ? & ?).
  repeat split; [done|congruence|lia].
Qed.

Lemma nothing_accepted_after_close_witness :
  exec [ASubmit SubmitCtxDone None; ASubmit SubmitSend None; AWorker 0 WorkerRecv]
    {| ctxDone := true;
       pool := with_requestCh pool1 (mkChan [req0] 2 true);
       running := [0]; accepted := [req0]; processed := [] |}
  = Some {| ctxDone := true;
            pool := with_requestCh pool1 (mkChan [] 2 true);
            running := [0]; accepted := [req0]; processed := [(0, req0)] |}
  ∧ closed (mkChan [req0] 2 true) = true
  ∧ closed (requestCh (with_requestCh pool1 (mkChan [] 2 true))) = true
  ∧ [req0] = [req0]
  ∧ (length (@nil (option request)) ≤ length [req0])%nat.
Proof.
  split; [reflexivity|]. split; [reflexivity|].
  apply (nothing_accepted_after_close
           [ASubmit SubmitCtxDone None; ASubmit SubmitSend None; AWorker 0 WorkerRecv]
           {| ctxDone := true;
              pool := with_requestCh pool1 (mkChan [req0] 2 true);
              running := [0]; accepted := [req0]; processed := [] |}
           {| ctxDone := true;
              pool := with_requestCh pool1 (mkChan [] 2 true);
              running := [0]; accepted := [req0]; processed := [(0, req0)] |});
    reflexivity.
Defined.

Lemma step_drained_if_left (n : nat) (a : action) (s s' : sys) :
  step a s = Some s' →
  (length (running s) ≤ n)%nat ∧ drained_if_left n s →
  (length (running s') ≤ n)%nat ∧ drained_if_left n s'.
Proof.
  unfold drained_if_left, pending. destruct s as [done wp run acc proc].
  destruct wp as [sz wk [b cp cl] stp pwg].
  destruct a as [c req|id c| | |]; cbn.
  - destruct c; cbn.
    + destruct done; cbn; [by intros [= <-]|discriminate].
    + destruct stp; [by intros [= <-]|discriminate].
    + unfold send; cbn. destruct cl; cbn; [by intros [= <-]|].
      case_bool_decide; cbn; [|discriminate].
      intros [= <-] [Hlen Hd]; cbn. split; [done|].
      intros Hdone Hrun. by destruct (Hd Hdone Hrun).
  - case_bool_decide; [|discriminate].
    pose proof (List.filter_length_le (λ j, negb (j =? id)) run) as Hfl.
    destruct c; cbn.
    + destruct done; [|discriminate]. intros [= <-] [Hlen Hd]; cbn.
      split; [lia|]. done.
    + unfold recv; cbn. destruct b as [|req rest]; cbn.
      * destruct cl; [|discriminate]. intros [= <-] [Hlen Hd]; cbn.
        split; [lia|]. done.
      * intros [= <-] [Hlen Hd]; cbn. split; [done|].
        intros Hdone Hrun. by destruct (Hd Hdone Hrun).
  - intros [= <-] [Hlen Hd]; cbn. split; [done|]. done.
  - destruct stp; [discriminate|]. by intros [= <-].
  - destruct ((done || stp) && negb cl) eqn:Hg; [|discriminate].
    intros [= <-] [Hlen Hd]; cbn. split; [done|].
    intros Hdone Hrun. destruct (Hd Hdone Hrun) as [-> ->]. done.
Qed.

(** X10.  If the pool is stopped without its context being cancelled, no
    accepted item is lost: in every reachable state in which the context is
    not cancelled and a worker has returned, the queue is empty and closed
    and every accepted item has been processed, once and in order. *)
Theorem stop_without_cancel_drains (wp : t) (acts : list action) (st : sys) :
  buf (requestCh wp) = [] →
  exec acts (start wp) = Some st →
  ctxDone st = false →
  (length (running st) < Z.to_nat (size wp))%nat →
  pending st = []
  ∧ closed (requestCh (pool st)) = true
  ∧ accepted st = (processed st).*2.
Proof.
  intros Hempty Hexec Hdone Hleft.
  assert ((length (running st) ≤ Z.to_nat (size wp))%nat
          ∧ drained_if_left (Z.to_nat (size wp)) st) as [_ Hd].
  { refine (exec_invariant
              (λ s, (length (running s) ≤ Z.to_nat (size wp))%nat
                    ∧ drained_if_left (Z.to_nat (size wp)) s)
              acts (start wp) st _ Hexec _).
    - intros a s1 s2. apply step_drained_if_left.
    - unfold drained_if_left. cbn. rewrite length_fmap, length_seq.
      split; [done|]. intros _ ?. lia. }
  destruct (Hd Hdone Hleft) as [Hp Hc]. split; [done|]. split; [done|].
  pose proof (exec_fifo acts (start wp) st Hexec) as Hfifo.
  unfold fifo in Hfifo. rewrite Hp, app_nil_r in Hfifo. apply Hfifo.
  unfold pending. cbn. by rewrite Hempty.
Qed.

Lemma stop_without_cancel_drains_witness :
  buf (requestCh pool1) = []
  ∧ exec [ASubmit SubmitSend req0; ACloseStopCh; ACloseRequestCh;
          AWorker 0 WorkerRecv; AWorker 0 WorkerRecv] (start pool1)
    = Some {| ctxDone := false;
              pool := {| size := 1; workers := 1;
                         requestCh := mkChan [] 2 true;
                         stopCh := true; wg := 1 |};
              running := []; accepted := [req0]; processed := [(0, req0)] |}
  ∧ false = false
  ∧ (length (@nil Z) < Z.to_nat (size pool1))%nat
  ∧ @nil (option request) = []
  ∧ closed (mkChan (@nil (option request)) 2 true) = true
  ∧ [req0] = [(0, req0)].*2.
Proof.
  split; [reflexivity|]. split; [reflexivity|]. split; [reflexivity|].
  split; [vm_compute; lia|].
  apply (stop_without_cancel_drains pool1
           [ASubmit SubmitSend req0; ACloseStopCh; ACloseRequestCh;
            AWorker 0 WorkerRecv; AWorker 0 WorkerRecv]
           {| ctxDone := false;
              pool := {| size := 1; workers := 1;
                         requestCh := mkChan [] 2 true;
                         stopCh := true; wg := 1 |};
              running := []; accepted := [req0]; processed := [(0, req0)] |});
    [reflexivity|reflexivity|reflexivity|vm_compute; lia].
Defined.

(** A worker's iteration takes an item from the queue or ends the worker. *)
Lemma worker_step_measure (id : Z) (c : worker_case) (s s' : sys) :
  step (AWorker id c) s = Some s' →
  (S (length (pending s') + length (running s'))
   ≤ length (pending s) + length (running s))%nat.
Proof.
  intros Hstep. destruct (worker_step_cases id c s s' Hstep)
    as [(Hout & _ & Hp & _)|(Hin & req & Hp & _)].
  - rewrite Hp. revert Hstep Hout. destruct s as [done wp run acc proc]. cbn.
    case_bool_decide as Hid; [|discriminate].
    assert (length (List.filter (λ j, negb (j =? id)%Z) run) < length run)%nat as Hlt.
    { apply list_elem_of_In in Hid. clear -Hid.
      induction run as [|x run IH]; [done|]. cbn.
      destruct Hid as [->|Hid].
      - rewrite Z.eqb_refl. cbn.
        pose proof (List.filter_length_le (λ j, negb (j =? id)) run). lia.
      - specialize (IH Hid). destruct (negb (x =? id)); cbn; lia. }
    destruct (worker_iter done wp c) as [[[|req] wp']|]; [| |discriminate].
    + intros [= <-] _. cbn. lia.
    + intros [= <-] Hout. cbn in Hout. done.
  - rewrite Hp. cbn. revert Hstep. destruct s as [done wp run acc proc]. cbn.
    case_bool_decide as Hid; [|discriminate].
    destruct (worker_iter done wp c) as [[[|req'] wp']|]; [| |discriminate].
    + intros [= <-]. cbn in *. rewrite list_elem_of_In, List.filter_In in Hin.
      destruct Hin as [_ Hin]. by rewrite Z.eqb_refl in Hin.
    + intros [= <-]. cbn. lia.
Qed.

(** X11.  Workers cannot run forever on their own: an execution made of
    worker iterations only is at most as long as the number of queued items
    plus the number of running workers it starts from. *)
Theorem worker_iterations_bounded (acts : list action) (s s' : sys) :
  forallb is_worker_action acts = true →
  exec acts s = Some s' →
  (length acts + length (pending s') + length (running s')
   ≤ length (pending s) + length (running s))%nat.
Proof.
  revert s. induction acts as [|a acts IH]; intros s Hall; cbn.
  - intros [= <-]. lia.
  - cbn in Hall. apply andb_prop in Hall as [Ha Hall].
    destruct (step a s) as [s1|] eqn:Hstep; [|discriminate].
    intros Hexec. specialize (IH s1 Hall Hexec).
    destruct a as [|id c| | |]; try discriminate Ha.
    pose proof (worker_step_measure id c s s1 Hstep). lia.
Qed.

Lemma worker_iterations_bounded_witness :
  forallb is_worker_action [AWorker 0 WorkerRecv; AWorker 0 WorkerRecv] = true
  ∧ exec [AWorker 0 WorkerRecv; AWorker 0 WorkerRecv] (start pool1_full)
    = Some {| ctxDone := false;
              pool := {| size := 1; workers := 1;
                         requestCh := mkChan [] 2 false;
                         stopCh := false; wg := 1 |};
              running := [0]; accepted := [];
              processed := [(0, req0); (0, None)] |}
  ∧ (length [AWorker 0 WorkerRecv; AWorker 0 WorkerRecv]
     + length (@nil (option request)) + length [0]
     ≤ length (pending (start pool1_full)) + length (running (start pool1_full)))%nat.
Proof.
  split; [reflexivity|]. split; [reflexivity|].
  apply (worker_iterations_bounded [AWorker 0 WorkerRecv; AWorker 0 WorkerRecv]
           (start pool1_full)
           {| ctxDone := false;
              pool := {| size := 1; workers := 1;
                         requestCh := mkChan [] 2 false;
                         stopCh := false; wg := 1 |};
              running := [0]; accepted := [];
              processed := [(0, req0); (0, None)] |}); reflexivity.
Defined.

End WorkerPoolLaws.

(** * Laws of the server's life cycle *)

Lemma actions_app (tr1 tr2 : list event) :
  actions (tr1 ++ tr2) = actions tr1 ++ actions tr2.
Proof. apply List.filter_app. Qed.

(** X12.  A run of [Stop] on a started server leaves the server stopped:
    the root context is cancelled, the shutdown channel and the pool's stop
    channel are closed, the configuration is untouched.  It returns nil
    exactly when the HTTP shutdown succeeded, both waits ended in time, and
    the connection, if open, closed without error. *)
Theorem stop_leaves_server_stopped (env : stopEnv) (s : Server) :
  started s = true →
  ∃ r s' wp',
    Stop env s = (Ok r, s')
    ∧ rootCtx s' = true ∧ shutdownCh s' = true ∧ shutdownOnce s' = true
    ∧ workerPool s' = Some wp' ∧ workerPool.stopCh wp' = true
    ∧ config s' = config s
    ∧ (r = None
       ↔ httpShutdownErr env = None ∧ poolWait env = WaitDone
         ∧ wgWait env = WaitDone
         ∧ (∀ db, dbConn s = Some db → dbConnection.is_open db = true →
            connCloseErr env = None)).
Proof.
  intros Hs. started_cases s env Hs.
  all: eexists _, _, _; split; [reflexivity|]; cbn.
  all: do 6 (split; [reflexivity|]).
  all: split; [intros Hr; try discriminate Hr; repeat split;
               intros db [= <-]; cbn; done
              |intros (H1 & H2 & H3 & H4); try done].
  all: specialize (H4 _ eq_refl eq_refl); done.
Qed.

Lemma stop_leaves_server_stopped_witness :
  started server0 = true
  ∧ ∃ r s' wp',
      Stop env_ok server0 = (Ok r, s')
      ∧ rootCtx s' = true ∧ shutdownCh s' = true ∧ shutdownOnce s' = true
      ∧ workerPool s' = Some wp' ∧ workerPool.stopCh wp' = true
      ∧ config s' = config server0
      ∧ (r = None
         ↔ httpShutdownErr env_ok = None ∧ poolWait env_ok = WaitDone
           ∧ wgWait env_ok = WaitDone
           ∧ (∀ db, dbConn server0 = Some db → dbConnection.is_open db = true →
              connCloseErr env_ok = None)).
Proof.
  split; [reflexivity|].
  apply (stop_leaves_server_stopped env_ok server0). reflexivity.
Defined.

(** X13.  The once-guard is what makes a repeated [Stop] safe: run a second
    time on the server the first run leaves, the shutdown body panics when
    it closes the pool's stop channel again. *)
Theorem stop_body_twice_panics (env1 env2 : stopEnv) (s : Server) :
  started s = true →
  ∃ r s1 s2,
    Stop_body env1 s = (Ok r, s1)
    ∧ Stop_body env2 s1 = (Panic "close of closed channel", s2)
    ∧ actions (trace s2) = actions (trace s1) ++ [RootCancel; HttpShutdown].
Proof.
  intros Hs. destruct env2 as [[e1'|] p2 w2 c2].
  all: started_cases s env1 Hs.
  all: eexists _, _, _; split; [reflexivity|].
  all: cbn; (split; [reflexivity|]).
  all: rewrite <- ?app_assoc; cbn; rewrite !actions_app, <- ?app_assoc.
  all: f_equal.
Qed.

Lemma stop_body_twice_panics_witness :
  started server0 = true
  ∧ ∃ r s1 s2,
      Stop_body env_ok server0 = (Ok r, s1)
      ∧ Stop_body env_ok s1 = (Panic "close of closed channel", s2)
      ∧ actions (trace s2) = actions (trace s1) ++ [RootCancel; HttpShutdown].
Proof.
  split; [reflexivity|].
  apply (stop_body_twice_panics env_ok env_ok server0). reflexivity.
Defined.

(** X14.  When [connect] fails, [Start] returns the wrapped error before
    anything is launched: no goroutine is started, the wait group is not
    raised, and the cache warmer, the worker pool and the HTTP server are
    left as they were. *)
Theorem failed_start_launches_nothing
    (connect : dbConnection.t → dbConnection.t * option error * list event)
    (s : Server) (db : dbConnection.t) (err : error) (evs : list event) :
  connect dbConnection.newDBConnection = (db, Some err, evs) →
  ∃ s',
    Start_with connect s = (Ok (Some (Wrapf "failed to connect to database" err)), s')
    ∧ trace s' = trace s ++ Log "starting server" :: evs
    ∧ wg s' = wg s
    ∧ cacheWarmer s' = cacheWarmer s
    ∧ workerPool s' = workerPool s
    ∧ httpServer s' = httpServer s
    ∧ dbConn s' = Some db.
Proof.
  intros Hc. unfold Start_with. cbn. rewrite Hc. cbn.
  eexists. split; [reflexivity|]. cbn. rewrite <- app_assoc. repeat split.
Qed.

Lemma failed_start_launches_nothing_witness :
  connect_unreachable dbConnection.newDBConnection
    = (dbConnection.newDBConnection, Some (Errorf "connection refused"), [DbConnect])
  ∧ ∃ s',
      Start_with connect_unreachable server0
        = (Ok (Some (Wrapf "failed to connect to database"
                       (Errorf "connection refused"))), s')
      ∧ trace s' = trace server0 ++ Log "starting server" :: [DbConnect]
      ∧ wg s' = wg server0
      ∧ cacheWarmer s' = cacheWarmer server0
      ∧ workerPool s' = workerPool server0
      ∧ httpServer s' = httpServer server0
      ∧ dbConn s' = Some dbConnection.newDBConnection.
Proof.
  split; [reflexivity|].
  apply (failed_start_launches_nothing connect_unreachable server0
           dbConnection.newDBConnection (Errorf "connection refused") [DbConnect]).
  reflexivity.
Defined.

(** X15.  With a pool size whose double is negative as an [int], [Start]
    panics when it makes the request channel; by then the connection is
    open and the cache warmer's goroutine has been launched, and neither is
    undone. *)
Theorem start_negative_pool_size_panics (s : Server) :
  to_int (WorkerPoolSize (config s) * 2) < 0 →
  ∃ s' db,
    Start s = (Panic "makechan: size out of range", s')
    ∧ actions (trace s') = actions (trace s) ++ [DbConnect; Spawn GoCacheWarmer]
    ∧ wg s' = wg s + 1
    ∧ dbConn s' = Some db ∧ dbConnection.is_open db = true
    ∧ workerPool s' = workerPool s
    ∧ httpServer s' = httpServer s.
Proof.
  intros Hsz. unfold Start, Start_with, workerPool.newWorkerPool, make_chan.
  cbn. rewrite bool_decide_eq_true_2 by done. cbn.
  eexists _, _. split; [reflexivity|]. cbn.
  split; [|repeat split].
  rewrite <- ?app_assoc. cbn. by rewrite actions_app.
Qed.

Lemma start_negative_pool_size_panics_witness :
  to_int (WorkerPoolSize (config (NewServer (mkConfig "8080" (-1) 5000 10000))) * 2) < 0
  ∧ ∃ s' db,
      Start (NewServer (mkConfig "8080" (-1) 5000 10000))
        = (Panic "makechan: size out of range", s')
      ∧ actions (trace s')
        = actions (trace (NewServer (mkConfig "8080" (-1) 5000 10000)))
          ++ [DbConnect; Spawn GoCacheWarmer]
      ∧ wg s' = wg (NewServer (mkConfig "8080" (-1) 5000 10000)) + 1
      ∧ dbConn s' = Some db ∧ dbConnection.is_open db = true
      ∧ workerPool s' = workerPool (NewServer (mkConfig "8080" (-1) 5000 10000))
      ∧ httpServer s' = httpServer (NewServer (mkConfig "8080" (-1) 5000 10000)).
Proof.
  split; [vm_compute; reflexivity|].
  apply (start_negative_pool_size_panics (NewServer (mkConfig "8080" (-1) 5000 10000))).
  vm_compute; reflexivity.
Defined.

(** * Laws of [handleRequest] *)

(** X16.  However [handleRequest] ends, it has done one of three things:
    enqueued the request, pool otherwise untouched, and written nothing;
    or written a 503 response and left the pool untouched; or panicked and
    left the server untouched.  A request is never both queued and
    rejected. *)
Theorem handleRequest_enqueues_or_rejects (wr : nat) (hr : httpRequest)
    (s s' : Server) (out : res unit) :
  (out, s') ∈ handleRequest wr hr s →
  (out = Ok () ∧ trace s' = trace s
   ∧ ∃ wp, workerPool s = Some wp
       ∧ workerPool s'
         = Some (workerPool.with_requestCh wp
                   (mkChan (buf (workerPool.requestCh wp)
                            ++ [Some {| w := Some wr; r := Some hr |}])
                      (cap (workerPool.requestCh wp)) false)))
  ∨ (out = Ok () ∧ workerPool s' = workerPool s
     ∧ ∃ msg, trace s' = trace s ++ [Resp wr (HttpError msg 503)])
  ∨ (∃ msg, out = Panic msg ∧ s' = s).
Proof.
  unfold handleRequest, emit, set_workerPool. destruct (shutdownCh s) eqn:Hsh.
  - intros [= -> ->]%list_elem_of_singleton. right; left. cbn. eauto.
  - destruct (workerPool s) as [wp|] eqn:Hwp.
    + intros ([o wp'] & Heq & Hin)%list_elem_of_fmap.
      destruct (submit_effect _ _ _ _ _ Hin) as [Hnil Herr].
      destruct o as [[e|]|msg]; cbn in Heq; simplify_eq.
      * right; left. cbn. eauto.
      * left. destruct (Hnil eq_refl) as (-> & _ & _). cbn. eauto.
      * right; right. eauto.
    + intros [= -> ->]%list_elem_of_singleton. right; right. eauto.
Qed.

Lemma handleRequest_enqueues_or_rejects_witness :
  ∃ s', (Ok (), s') ∈ handleRequest 1 hr0 server0
    ∧ ((Ok () = Ok () ∧ trace s' = trace server0
        ∧ ∃ wp, workerPool server0 = Some wp
            ∧ workerPool s'
              = Some (workerPool.with_requestCh wp
                        (mkChan (buf (workerPool.requestCh wp)
                                 ++ [Some {| w := Some 1%nat; r := Some hr0 |}])
                           (cap (workerPool.requestCh wp)) false)))
       ∨ (Ok () = Ok () ∧ workerPool s' = workerPool server0
          ∧ ∃ msg, trace s' = trace server0 ++ [Resp 1 (HttpError msg 503)])
       ∨ (∃ msg, Ok () = Panic msg ∧ s' = server0)).
Proof.
  eexists.
  assert ((Ok (), (set_workerPool
                     (Some (workerPool.with_requestCh
                              (workerPool.mk 2 0 (mkChan [] 4 false) false 0)
                              (mkChan [Some {| w := Some 1%nat; r := Some hr0 |}]
                                 4 false)))
                     server0).2)
          ∈ handleRequest 1 hr0 server0) as Hin.
  { vm_compute. apply list_elem_of_here. }
  split; [exact Hin|].
  exact (handleRequest_enqueues_or_rejects 1 hr0 server0 _ (Ok ()) Hin).
Defined.

(** X17.  After [Stop] has returned, every request is answered at once with
    503 "Server is shutting down"; nothing is submitted to the pool. *)
Theorem handleRequest_after_stop_rejects (env : stopEnv) (wr : nat)
    (hr : httpRequest) (s : Server) :
  started s = true →
  ∃ r s',
    Stop env s = (Ok r, s')
    ∧ ∃ s'',
        handleRequest wr hr s' = [(Ok (), s'')]
        ∧ workerPool s'' = workerPool s'
        ∧ trace s'' = trace s' ++ [Resp wr (HttpError "Server is shutting down" 503)].
Proof.
  intros Hs. started_cases s env Hs.
  all: eexists _, _; split; [reflexivity|].
  all: eexists; split; [reflexivity|]; split; reflexivity.
Qed.

Lemma handleRequest_after_stop_rejects_witness :
  started server0 = true
  ∧ ∃ r s',
      Stop env_ok server0 = (Ok r, s')
      ∧ ∃ s'',
          handleRequest 1 hr0 s' = [(Ok (), s'')]
          ∧ workerPool s'' = workerPool s'
          ∧ trace s'' = trace s' ++ [Resp 1 (HttpError "Server is shutting down" 503)].
Proof.
  split; [reflexivity|].
  apply (handleRequest_after_stop_rejects env_ok 1 hr0 server0). reflexivity.
Defined.

(** X18.  Between the cancellation of the root context and the closing of
    the request channel, a request is not reliably rejected: while the
    queue is open and has room, [handleRequest] can answer 503 "Service
    unavailable", and it can as well enqueue the request. *)
Theorem handleRequest_after_cancel_may_enqueue (wr : nat) (hr : httpRequest)
    (s : Server) (wp : workerPool.t) :
  shutdownCh s = false →
  rootCtx s = true →
  workerPool s = Some wp →
  workerPool.stopCh wp = false →
  closed (workerPool.requestCh wp) = false →
  Z.of_nat (length (buf (workerPool.requestCh wp))) < cap (workerPool.requestCh wp) →
  ∃ s1 s2,
    handleRequest wr hr s = [(Ok (), s1); (Ok (), s2)]
    ∧ workerPool s1 = Some wp
    ∧ trace s1 = trace s ++ [Resp wr (HttpError "Service unavailable" 503)]
    ∧ trace s2 = trace s
    ∧ workerPool s2
      = Some (workerPool.with_requestCh wp
                (mkChan (buf (workerPool.requestCh wp)
                         ++ [Some {| w := Some wr; r := Some hr |}])
                   (cap (workerPool.requestCh wp)) false)).
Proof.
  intros Hsh Hroot Hwp Hstop Hcl Hroom.
  unfold handleRequest, workerPool.submit. rewrite Hsh, Hwp, Hroot. cbn.
  unfold send. rewrite Hstop, Hcl. cbn.
  rewrite bool_decide_eq_true_2 by done. cbn.
  eexists _, _. split; [reflexivity|]. cbn. by rewrite Hwp.
Qed.

Lemma handleRequest_after_cancel_may_enqueue_witness :
  shutdownCh (rootCancel server0).2 = false
  ∧ rootCtx (rootCancel server0).2 = true
  ∧ workerPool (rootCancel server0).2
    = Some (workerPool.mk 2 0 (mkChan [] 4 false) false 0)
  ∧ workerPool.stopCh (workerPool.mk 2 0 (mkChan [] 4 false) false 0) = false
  ∧ closed (workerPool.requestCh
              (workerPool.mk 2 0 (mkChan [] 4 false) false 0)) = false
  ∧ Z.of_nat (length (buf (workerPool.requestCh
                             (workerPool.mk 2 0 (mkChan [] 4 false) false 0))))
    < cap (workerPool.requestCh (workerPool.mk 2 0 (mkChan [] 4 false) false 0))
  ∧ ∃ s1 s2,
      handleRequest 1 hr0 (rootCancel server0).2 = [(Ok (), s1); (Ok (), s2)]
      ∧ workerPool s1 = Some (workerPool.mk 2 0 (mkChan [] 4 false) false 0)
      ∧ trace s1
        = trace (rootCancel server0).2
          ++ [Resp 1 (HttpError "Service unavailable" 503)]
      ∧ trace s2 = trace (rootCancel server0).2
      ∧ workerPool s2
        = Some (workerPool.with_requestCh
                  (workerPool.mk 2 0 (mkChan [] 4 false) false 0)
                  (mkChan (buf (workerPool.requestCh
                                  (workerPool.mk 2 0 (mkChan [] 4 false) false 0))
                           ++ [Some {| w := Some 1%nat; r := Some hr0 |}])
                     (cap (workerPool.requestCh
                             (workerPool.mk 2 0 (mkChan [] 4 false) false 0)))
                     false)).
Proof.
  do 5 (split; [reflexivity|]). split; [vm_compute; reflexivity|].
  apply (handleRequest_after_cancel_may_enqueue 1 hr0 (rootCancel server0).2
           (workerPool.mk 2 0 (mkChan [] 4 false) false 0));
    first [reflexivity | vm_compute; reflexivity].
Defined.

(** X19.  A stopped server cannot be restarted.  [Start] after [Stop]
    returns nil and launches its goroutines, but the root context stays
    cancelled and the shutdown channel stays closed: every request is still
    answered 503, and a later [Stop] does nothing, so the pool that the
    second [Start] made is never told to stop. *)
Theorem no_restart_after_stop (env env' : stopEnv) (wr : nat) (hr : httpRequest)
    (s : Server) :
  started s = true →
  0 ≤ to_int (WorkerPoolSize (config s) * 2) →
  ∃ r s1 s2 s3 wp,
    Stop env s = (Ok r, s1)
    ∧ Start s1 = (Ok None, s2)
    ∧ rootCtx s2 = true ∧ shutdownCh s2 = true
    ∧ workerPool s2 = Some wp ∧ workerPool.stopCh wp = false
    ∧ Stop env' s2 = (Ok None, s2)
    ∧ handleRequest wr hr s2 = [(Ok (), s3)]
    ∧ trace s3 = trace s2 ++ [Resp wr (HttpError "Server is shutting down" 503)].
Proof.
  intros Hs Hsz. started_cases s env Hs.
  all: cbn in Hsz.
  all: eexists _, _, _, _, _; split; [reflexivity|].
  all: unfold Start, Start_with, workerPool.newWorkerPool, make_chan; cbn.
  all: rewrite bool_decide_eq_false_2 by lia; cbn.
  all: split; [reflexivity|]; cbn; repeat split.
Qed.

Lemma no_restart_after_stop_witness :
  started server0 = true
  ∧ 0 ≤ to_int (WorkerPoolSize (config server0) * 2)
  ∧ ∃ r s1 s2 s3 wp,
      Stop env_ok server0 = (Ok r, s1)
      ∧ Start s1 = (Ok None, s2)
      ∧ rootCtx s2 = true ∧ shutdownCh s2 = true
      ∧ workerPool s2 = Some wp ∧ workerPool.stopCh wp = false
      ∧ Stop env_timeout s2 = (Ok None, s2)
      ∧ handleRequest 1 hr0 s2 = [(Ok (), s3)]
      ∧ trace s3 = trace s2 ++ [Resp 1 (HttpError "Server is shutting down" 503)].
Proof.
  split; [reflexivity|]. split; [vm_compute; discriminate|].
  apply (no_restart_after_stop env_ok env_timeout 1 hr0 server0);
    [reflexivity|vm_compute; discriminate].
Defined.

(** * Laws of [processRequest] and of the cache warmer *)

(** X20.  [processRequest] writes no response for a nil request, for a
    request without an HTTP request, and for one without a writer: every
    run consists of log lines only, whatever the pool's context does, and
    the call never blocks. *)
Theorem processRequest_without_writer_is_silent
    (now : Z) (cancelAt : option Z) (req : option request) (workerID : Z) :
  (∀ rq, req = Some rq → r rq = None ∨ w rq = None) →
  workerPool.processRequest now cancelAt req workerID ≠ []
  ∧ ∀ run, run ∈ workerPool.processRequest now cancelAt req workerID →
      Forall (λ e, is_log e = true) run.
Proof.
  intros Hnil. unfold workerPool.processRequest, workerPool.work_ready.
  assert (∀ c, Forall (λ e, is_log e = true)
                 (workerPool.processRequest_case c req workerID)) as Hlog.
  { intros c. unfold workerPool.processRequest_case.
    destruct req as [[[wr|] [hr|]]|]; repeat constructor.
    destruct (Hnil _ eq_refl) as [?|?]; discriminate. }
  split.
  - destruct cancelAt as [tc|]; repeat case_bool_decide; discriminate.
  - intros run (c & -> & _)%list_elem_of_fmap. apply Hlog.
Qed.

Lemma processRequest_without_writer_is_silent_witness :
  (∀ rq, Some {| w := None; r := Some hr0 |} = Some rq → r rq = None ∨ w rq = None)
  ∧ workerPool.processRequest 0 (Some 50) (Some {| w := None; r := Some hr0 |}) 3 ≠ []
  ∧ ∀ run,
      run ∈ workerPool.processRequest 0 (Some 50)
              (Some {| w := None; r := Some hr0 |}) 3 →
      Forall (λ e, is_log e = true) run.
Proof.
  assert (∀ rq, Some {| w := None; r := Some hr0 |} = Some rq →
                r rq = None ∨ w rq = None) as Hnil.
  { intros rq [= <-]. right. reflexivity. }
  split; [exact Hnil|].
  exact (processRequest_without_writer_is_silent 0 (Some 50)
           (Some {| w := None; r := Some hr0 |}) 3 Hnil).
Defined.

Lemma cacheWarmer_loop_spec (cases : list cw_case) :
  (cacheWarmer_loop cases).2 = true ↔ CwCtxDone ∈ cases.
Proof.
  induction cases as [|[|] cases IH]; cbn.
  - split; [discriminate|]. by intros ?%elem_of_nil.
  - split; [|done]. intros _. apply list_elem_of_here.
  - destruct (cacheWarmer_loop cases) as [evs ret]. cbn in *.
    rewrite IH. split.
    + by apply list_elem_of_further.
    + intros [?|?]%elem_of_cons; [discriminate|done].
Qed.

Lemma cacheWarmer_loop_events (cases : list cw_case) :
  let '(evs, returned) := cacheWarmer_loop cases in
  count_occ cw_event_eq_dec evs (CwLog "warming cache") = ticks_before_cancel cases
  ∧ (CwTickerStop ∉ evs) ∧ (CwWgDone ∉ evs)
  ∧ (returned = true →
     ∃ pre, evs = pre ++ [CwLog "cache warmer context cancelled"]).
Proof.
  induction cases as [|[|] cases IH]; cbn.
  - repeat split; [by intros ?%elem_of_nil|by intros ?%elem_of_nil|discriminate].
  - repeat split.
    + intros [?|?%elem_of_nil]%elem_of_cons; [discriminate|done].
    + intros [?|?%elem_of_nil]%elem_of_cons; [discriminate|done].
    + intros _. by exists [].
  - destruct (cacheWarmer_loop cases) as [evs ret].
    destruct IH as (Hcount & Hstop & Hdone & Hlast). cbn. repeat split.
    + by rewrite Hcount.
    + intros Hin. repeat (apply elem_of_cons in Hin as [Hin|Hin]; [discriminate|]).
      done.
    + intros Hin. repeat (apply elem_of_cons in Hin as [Hin|Hin]; [discriminate|]).
      done.
    + intros Hret. destruct (Hlast Hret) as [pre ->].
      by exists (CwLog "warming cache" :: CwSleep 100 :: CwLog "cache warmed" :: pre).
Qed.

(** X21.  The cache warmer warms the cache once for every tick it takes
    before it sees the cancellation, and never after.  It returns exactly
    when it takes the cancellation case, and then its last actions are the
    cancellation log line, stopping its ticker and releasing the wait
    group, each of the two once and in this order; while it has not
    returned it has done neither. *)
Theorem cacheWarmer_stops_ticker_on_return (cases : list cw_case) :
  let '(evs, returned) := cacheWarmer_start cases in
  (returned = true ↔ CwCtxDone ∈ cases)
  ∧ count_occ cw_event_eq_dec evs (CwLog "warming cache") = ticks_before_cancel cases
  ∧ (if returned
     then ∃ pre, evs = pre ++ [CwLog "cache warmer context cancelled";
                               CwTickerStop; CwWgDone]
            ∧ (CwTickerStop ∉ pre) ∧ (CwWgDone ∉ pre)
     else (CwTickerStop ∉ evs) ∧ (CwWgDone ∉ evs)).
Proof.
  unfold cacheWarmer_start.
  pose proof (cacheWarmer_loop_spec cases) as Hret.
  pose proof (cacheWarmer_loop_events cases) as Hev.
  destruct (cacheWarmer_loop cases) as [evs ret]. cbn in Hret.
  destruct Hev as (Hcount & Hstop & Hdone & Hlast).
  split; [done|]. split.
  - rewrite !count_occ_app, Hcount.
    assert (count_occ cw_event_eq_dec [CwLog "cache warmer started"]
              (CwLog "warming cache") = 0%nat) as -> by reflexivity.
    assert (count_occ cw_event_eq_dec
              (if ret then [CwTickerStop; CwWgDone] else [])
              (CwLog "warming cache") = 0%nat) as -> by (by destruct ret).
    lia.
  - destruct ret.
    + destruct (Hlast eq_refl) as [pre ->].
      exists (CwLog "cache warmer started" :: pre). split.
      * cbn. by rewrite <- !app_assoc.
      * rewrite elem_of_app in Hstop, Hdone.
        split; intros [?|?]%elem_of_cons; try discriminate; tauto.
    + rewrite app_nil_r. cbn.
      split; intros [?|?]%elem_of_cons; try discriminate; tauto.
Qed.
